(** * screen2cam: the real-time frame pipeline

    A shallow embedding of the C sources of screen2cam
    (convert.c, vcam.c, vcam_win.c, capture.c, capture_win.c, main.c)
    and the properties of the frame pipeline proved about it.

    Conventions.
    - A C [int], [long] or [size_t] is a [Z].  [int] arithmetic is
      modelled in the range where C does not overflow; [size_t]
      arithmetic wraps modulo [2^64], the [long] arithmetic of the
      pacing code wraps at the width [long] has on the build (64 bits
      with vcam.c, 32 bits with vcam_win.c), and the wraps are written
      out.
    - A [uint8_t] buffer is a [list Z] of byte values (0..255); a store
      [p[k] = v] inside the buffer is stdpp's [<[k:=v]>], a load is a
      list lookup.  A store outside the buffer is undefined in C:
      [Convert.stores_within] says that a conversion makes none.
    - Calls into the operating system (write, AcquireNextFrame, the
      clock, ...) take their outcome from an explicit environment
      argument. *)

From Stdlib Require Import ZArith Lia.
From Stdlib Require Import String Ascii.
From stdpp Require Import base tactics option list numbers strings.

Local Open Scope Z_scope.

(** ** C integer types, control flow and memory *)

(** [size_t] is 64 bits wide. *)
Definition SIZE_WIDTH : Z := 64.
Definition to_size_t (x : Z) : Z := x mod 2 ^ SIZE_WIDTH.

(** [(unsigned int)x], also [UINT]. *)
Definition to_uint (x : Z) : Z := x mod 2 ^ 32.

(** A 32-bit pattern read as a signed [HRESULT]. *)
Definition to_hresult (x : Z) : Z := if x <? 2 ^ 31 then x else x - 2 ^ 32.

(** The value [x] of an expression in a signed type of [bits] bits:
    reduced modulo [2^bits] and read as two's complement. *)
Definition to_signed (bits x : Z) : Z :=
  let m := x mod 2 ^ bits in
  if m <? 2 ^ (bits - 1) then m else m - 2 ^ bits.

(** A block returned by [malloc(n)]: [n] bytes whose contents are
    whatever the allocator left there, [heap k] at offset [k]. *)
Definition malloc_block (heap : Z → Z) (n : Z) : list Z :=
  heap <$> seqZ 0 n.

(** What the program prints on stderr, by call site. *)
Inductive log_msg :=
  | LogFpsRange                 (* "error: fps must be 1-60" *)
  | LogUsage
  | LogStreaming
  | LogCaptureRetry             (* "screen2cam: capture failed, retrying..." *)
  | LogFramesSent (frames : Z)
  | LogStopping (frames : Z)
  | LogPerror
  | LogInitFailed (hr : Z)      (* the "... failed: 0x%08lx" lines of capture_init *)
  | LogCaptureOpened
  | LogAccessLost               (* "capture_win: access lost (desktop mode change?)" *)
  | LogAcquireFailed (hr : Z)
  | LogQueryTextureFailed (hr : Z)
  | LogMapFailed (hr : Z).

(** [for (int i = lo; i < hi; i++) s = body i s]. *)
Definition c_for {S : Type} (lo hi : Z) (body : Z → S → S) (s : S) : S :=
  foldl (λ acc i, body i acc) s (seqZ lo (hi - lo)).

(** [p[k]] for a [const uint8_t *p]. *)
Definition load (p : list Z) (k : Z) : Z := default 0 (p !! Z.to_nat k).

(** [p[k] = v] for [k] inside the buffer [p].  (Outside, the list is
    left as it is; the C store is undefined there, and the theorems
    about a conversion into a buffer that may be too short assume
    [Convert.stores_within].) *)
Definition store (p : list Z) (k : Z) (v : Z) : list Z := <[Z.to_nat k := v]> p.

(** [memcpy(dst + off, src, n)]. *)
Definition memcpy (dst : list Z) (off : Z) (src : list Z) (n : Z) : list Z :=
  take (Z.to_nat off) dst ++ take (Z.to_nat n) src
    ++ drop (Z.to_nat off + Z.to_nat n) dst.

(** ** convert.c *)

Module Convert.

(** [(uint8_t)(x < 0 ? 0 : (x > 255 ? 255 : x))] *)
Definition clamp_u8 (x : Z) : Z :=
  if x <? 0 then 0 else if x >? 255 then 255 else x.

Definition luma (r g b : Z) : Z :=
  Z.shiftr (66 * r + 129 * g + 25 * b + 128) 8 + 16.

Definition chroma_u (r g b : Z) : Z :=
  Z.shiftr (-38 * r - 74 * g + 112 * b + 128) 8 + 128.

Definition chroma_v (r g b : Z) : Z :=
  Z.shiftr (112 * r - 94 * g - 18 * b + 128) 8 + 128.

(** The body of the inner loop of [bgra_to_yuv420p] for pixel [(i, j)];
    [u_plane] and [v_plane] are the offsets of the chroma planes in
    [dst] ([y_plane] is [dst] itself). *)
Definition pixel_body (src : list Z) (width half_w u_plane v_plane : Z)
    (j i : Z) (dst : list Z) : list Z :=
  let idx := (j * width + i) * 4 in
  let b := load src (idx + 0) in
  let g := load src (idx + 1) in
  let r := load src (idx + 2) in
  let y := luma r g b in
  let dst := store dst (j * width + i) (clamp_u8 y) in
  if (Z.land j 1 =? 0) && (Z.land i 1 =? 0) then
    let u := chroma_u r g b in
    let v := chroma_v r g b in
    let ci := (j ÷ 2) * half_w + (i ÷ 2) in
    let dst := store dst (u_plane + ci) (clamp_u8 u) in
    store dst (v_plane + ci) (clamp_u8 v)
  else dst.

Definition bgra_to_yuv420p (src dst : list Z) (width height : Z) : list Z :=
  let half_w := width ÷ 2 in
  let half_h := height ÷ 2 in
  let u_plane := width * height in
  let v_plane := u_plane + half_w * half_h in
  c_for 0 height (λ j dst,
    c_for 0 width (λ i dst,
      pixel_body src width half_w u_plane v_plane j i dst) dst) dst.

(** The three bytes the loop body stores for the pixel in column [i]
    of row [j]. *)
Definition pixel_y (src : list Z) (width i j : Z) : Z :=
  let idx := (j * width + i) * 4 in
  clamp_u8 (luma (load src (idx + 2)) (load src (idx + 1)) (load src (idx + 0))).

Definition pixel_u (src : list Z) (width i j : Z) : Z :=
  let idx := (j * width + i) * 4 in
  clamp_u8 (chroma_u (load src (idx + 2)) (load src (idx + 1)) (load src (idx + 0))).

Definition pixel_v (src : list Z) (width i j : Z) : Z :=
  let idx := (j * width + i) * 4 in
  clamp_u8 (chroma_v (load src (idx + 2)) (load src (idx + 1)) (load src (idx + 0))).

(** The pixels in the order the two loops visit them, row first. *)
Definition positions (width height : Z) : list (Z * Z) :=
  j ← seqZ 0 height; pair j <$> seqZ 0 width.

(** The loop body at pixel [p] inside [bgra_to_yuv420p src _ width height]. *)
Definition loop_body (src : list Z) (width height : Z) (p : Z * Z)
    (d : list Z) : list Z :=
  pixel_body src width (width ÷ 2) (width * height)
    (width * height + (width ÷ 2) * (height ÷ 2)) p.1 p.2 d.

(** The indices of [dst] the loop body stores to at pixel [p]. *)
Definition touches (width height : Z) (p : Z * Z) (n : nat) : Prop :=
  let '(j, i) := p in
  let ci := (j ÷ 2) * (width ÷ 2) + (i ÷ 2) in
  n = Z.to_nat (j * width + i) ∨
  ((Z.land j 1 =? 0) && (Z.land i 1 =? 0) = true ∧
   (n = Z.to_nat (width * height + ci) ∨
    n = Z.to_nat (width * height + (width ÷ 2) * (height ÷ 2) + ci))).

(** The indices of [dst] the loop body stores to at pixel [p], in the
    order of the stores: the luma byte, then for a pixel in an even row
    and column the two chroma bytes. *)
Definition store_indices (width height : Z) (p : Z * Z) : list Z :=
  let '(j, i) := p in
  let ci := (j ÷ 2) * (width ÷ 2) + (i ÷ 2) in
  (j * width + i)
  :: (if (Z.land j 1 =? 0) && (Z.land i 1 =? 0) then
        [width * height + ci;
         width * height + (width ÷ 2) * (height ÷ 2) + ci]
      else []).

(** Every store of [bgra_to_yuv420p _ dst width height] lands inside a
    [dst] of [size] bytes. *)
Definition stores_within (width height size : Z) : bool :=
  forallb (λ p, forallb (λ k, (0 <=? k) && (k <? size))
                  (store_indices width height p))
    (positions width height).

(** A frame of one BGRA pixel repeated [n] times. *)
Definition solid_bgra (n : nat) (r g b a : Z) : list Z :=
  mjoin (replicate n [b; g; r; a]).

End Convert.

(** ** vcam.c and vcam_win.c *)

Module Vcam.

Definition EINTR : Z := 4.

(** The two sinks of src/: the V4L2 loopback device of vcam.c and the
    raw stream (file or stdout) of vcam_win.c. *)
Inductive sink := V4L2 | WinStream.

(** [struct vcam_ctx].  vcam.c has no [is_stdout] field; it is [false]
    there. *)
Record vcam_ctx := {
  fd : Z;
  is_stdout : bool;
  width : Z;
  height : Z;
  frame_size : Z
}.

(** [(size_t)width * height * 3 / 2], each product wrapping as an
    unsigned 64-bit multiplication does. *)
Definition frame_size_of (width height : Z) : Z :=
  to_size_t (to_size_t (to_size_t width * to_size_t height) * 3) / 2.

(** What the operating system answers while a sink is opened. *)
Record open_env := {
  calloc_ok : bool;      (* calloc returned a block *)
  open_fd : Z;           (* result of open / _open / _fileno(stdout) *)
  config_ret : Z         (* result of ioctl(VIDIOC_S_FMT) / _setmode *)
}.

Definition vcam_open (s : sink) (e : open_env) (device : string)
    (width height : Z) : option vcam_ctx :=
  if negb (calloc_ok e) then None else
  match s with
  | V4L2 =>
      if open_fd e <? 0 then None
      else if config_ret e <? 0 then None
      else Some {| fd := open_fd e; is_stdout := false;
                   width := width; height := height;
                   frame_size := frame_size_of width height |}
  | WinStream =>
      if String.eqb device "-"%string then
        if config_ret e =? -1 then None
        else Some {| fd := open_fd e; is_stdout := true;
                     width := width; height := height;
                     frame_size := frame_size_of width height |}
      else
        if open_fd e <? 0 then None
        else Some {| fd := open_fd e; is_stdout := false;
                     width := width; height := height;
                     frame_size := frame_size_of width height |}
  end.

(** One call of [write(2)] / [_write] as the environment answers it:
    the descriptor takes at most [accept] bytes of the request, or the
    call fails with [errno]. *)
Inductive write_outcome :=
  | Accepts (accept : Z)
  | Fails (errno : Z).

(** [write(fd, buf, count)]: the return value, [errno] and the bytes
    that have reached the descriptor. *)
Definition sys_write (out buf : list Z) (count : Z) (o : write_outcome)
    : Z * Z * list Z :=
  match o with
  | Accepts a =>
      let n := Z.min (Z.max 0 a) count in
      (n, 0, out ++ take (Z.to_nat n) buf)
  | Fails e => (-1, e, out)
  end.

(** The third argument of the write call: [ctx->frame_size - written]
    in vcam.c, the same cast to [unsigned int] in vcam_win.c. *)
Definition write_count (s : sink) (remaining : Z) : Z :=
  match s with
  | V4L2 => remaining
  | WinStream => to_uint remaining
  end.

(** The result of a call that may still be blocked in its loop when
    the recorded outcomes run out. *)
Record write_state := {
  ret : option Z;             (* [None]: the call has not returned *)
  output : list Z;            (* everything written to the descriptor *)
  pending : list write_outcome (* outcomes not consumed *)
}.

(** [while (written < ctx->frame_size) { ... }] *)
Fixpoint write_loop (s : sink) (fsize : Z) (yuv420p : list Z)
    (written : Z) (tr : list write_outcome) (out : list Z) : write_state :=
  if written <? fsize then
    match tr with
    | [] => {| ret := None; output := out; pending := [] |}
    | o :: tr' =>
        let '(n, errno, out') :=
          sys_write out (drop (Z.to_nat written) yuv420p)
            (write_count s (fsize - written)) o in
        if n <? 0 then
          if errno =? EINTR then write_loop s fsize yuv420p written tr' out'
          else {| ret := Some (-1); output := out'; pending := tr' |}
        else write_loop s fsize yuv420p (written + n) tr' out'
    end
  else {| ret := Some 0; output := out; pending := tr |}.

Definition vcam_write (s : sink) (ctx : vcam_ctx) (yuv420p : list Z)
    (len : Z) (tr : list write_outcome) (out : list Z) : write_state :=
  if len <? frame_size ctx then
    {| ret := Some (-1); output := out; pending := tr |}
  else write_loop s (frame_size ctx) yuv420p 0 tr out.

(** Outcomes the loop goes on after: a call that takes at least one
    byte, or one interrupted by a signal. *)
Definition retried (o : write_outcome) : bool :=
  match o with
  | Accepts a => 0 <? a
  | Fails e => e =? EINTR
  end.

(** The number of calls in a trace that take bytes. *)
Fixpoint accepting_calls (tr : list write_outcome) : Z :=
  match tr with
  | [] => 0
  | Accepts _ :: tr' => 1 + accepting_calls tr'
  | Fails _ :: tr' => accepting_calls tr'
  end.

End Vcam.

(** ** capture.h: the interface every capture backend implements *)

Class CaptureBackend := {
  cap_ctx : Type;
  cap_init_env : Type;
  cap_grab_env : Type;
  (** [capture_init()]: [None] is the NULL return. *)
  cap_init : cap_init_env → option cap_ctx * list log_msg;
  cap_width : cap_ctx → Z;
  cap_height : cap_ctx → Z;
  (** [capture_grab(ctx)]: [None] is the NULL return, [Some px] a
      pointer to the BGRA bytes [px] held by the returned context. *)
  cap_grab : cap_ctx → cap_grab_env → option (list Z) * cap_ctx * list log_msg
}.

(** ** capture.c (X11, MIT-SHM or XGetImage) *)

Module CaptureX11.

Record capture_ctx := {
  width : Z;
  height : Z;
  use_shm : bool;
  img : option (list Z)        (* [ctx->img->data], [None] when img is NULL *)
}.

Record init_env := {
  calloc_ok : bool;
  display_ok : bool;           (* XOpenDisplay *)
  screen_width : Z;
  screen_height : Z;
  shm_extension : bool;        (* XShmQueryExtension *)
  shm_image_ok : bool;         (* XShmCreateImage *)
  shmid : Z;                   (* shmget *)
  shm_data : list Z            (* the attached segment *)
}.

Definition capture_init (e : init_env) : option capture_ctx * list log_msg :=
  if negb (calloc_ok e) then (None, [])
  else if negb (display_ok e) then (None, [LogInitFailed 0])
  else
    let ctx :=
      if shm_extension e then
        if negb (shm_image_ok e) then
          {| width := screen_width e; height := screen_height e;
             use_shm := false; img := None |}
        else if shmid e <? 0 then
          {| width := screen_width e; height := screen_height e;
             use_shm := false; img := None |}
        else
          {| width := screen_width e; height := screen_height e;
             use_shm := true; img := Some (shm_data e) |}
      else
        {| width := screen_width e; height := screen_height e;
           use_shm := false; img := None |} in
    (Some ctx, [LogCaptureOpened]).

Record grab_env := {
  screen : list Z;             (* the pixels the server delivers *)
  get_image_ok : bool          (* XGetImage returned an image *)
}.

Definition capture_grab (ctx : capture_ctx) (e : grab_env)
    : option (list Z) * capture_ctx * list log_msg :=
  if use_shm ctx then
    (Some (screen e),
     {| width := width ctx; height := height ctx;
        use_shm := true; img := Some (screen e) |}, [])
  else if get_image_ok e then
    (Some (screen e),
     {| width := width ctx; height := height ctx;
        use_shm := false; img := Some (screen e) |}, [])
  else
    (None,
     {| width := width ctx; height := height ctx;
        use_shm := false; img := None |}, []).

End CaptureX11.

#[export] Instance x11_backend : CaptureBackend := {|
  cap_ctx := CaptureX11.capture_ctx;
  cap_init_env := CaptureX11.init_env;
  cap_grab_env := CaptureX11.grab_env;
  cap_init := CaptureX11.capture_init;
  cap_width := CaptureX11.width;
  cap_height := CaptureX11.height;
  cap_grab := CaptureX11.capture_grab
|}.

(** ** capture_win.c (DXGI Desktop Duplication) *)

Module CaptureWin.

(** [HRESULT] values of the Windows SDK headers. *)
Definition S_FALSE : Z := 1.
Definition RPC_E_CHANGED_MODE : Z := to_hresult 0x80010106.
Definition DXGI_ERROR_ACCESS_LOST : Z := to_hresult 0x887A0026.
Definition DXGI_ERROR_WAIT_TIMEOUT : Z := to_hresult 0x887A0027.

(** [FAILED(hr)] *)
Definition FAILED (hr : Z) : bool := hr <? 0.

(** [struct capture_ctx].  The four COM interface pointers (device,
    context, duplication, staging) are handles into the driver; the
    results of the calls made through them come from the environment. *)
Record capture_ctx := {
  width : Z;
  height : Z;
  buffer : list Z;
  buffer_size : Z
}.

Record init_env := {
  hr_CoInitializeEx : Z;
  calloc_ok : bool;
  hr_D3D11CreateDevice : Z;
  hr_QueryInterface_device : Z;
  hr_GetAdapter : Z;
  hr_EnumOutputs : Z;
  desktop_left : Z;
  desktop_right : Z;
  desktop_top : Z;
  desktop_bottom : Z;
  hr_QueryInterface_output1 : Z;
  hr_DuplicateOutput : Z;
  hr_CreateTexture2D : Z;
  malloc_ok : bool;
  heap : Z → Z                 (* what the allocator's memory holds *)
}.

Definition capture_init (e : init_env) : option capture_ctx * list log_msg :=
  let hr := hr_CoInitializeEx e in
  if FAILED hr && negb (hr =? S_FALSE) && negb (hr =? RPC_E_CHANGED_MODE)
  then (None, [LogInitFailed hr])
  else if negb (calloc_ok e) then (None, [])
  else
  let hr := hr_D3D11CreateDevice e in
  if FAILED hr then (None, [LogInitFailed hr]) else
  let hr := hr_QueryInterface_device e in
  if FAILED hr then (None, [LogInitFailed hr]) else
  let hr := hr_GetAdapter e in
  if FAILED hr then (None, [LogInitFailed hr]) else
  let hr := hr_EnumOutputs e in
  if FAILED hr then (None, [LogInitFailed hr]) else
  let width := desktop_right e - desktop_left e in
  let height := desktop_bottom e - desktop_top e in
  let hr := hr_QueryInterface_output1 e in
  if FAILED hr then (None, [LogInitFailed hr]) else
  let hr := hr_DuplicateOutput e in
  if FAILED hr then (None, [LogInitFailed hr]) else
  let hr := hr_CreateTexture2D e in
  if FAILED hr then (None, [LogInitFailed hr]) else
  let buffer_size := to_size_t (to_size_t (to_size_t width * to_size_t height) * 4) in
  if negb (malloc_ok e) then (None, [LogPerror])
  else
    (Some {| width := width; height := height;
             buffer := malloc_block (heap e) buffer_size;
             buffer_size := buffer_size |},
     [LogCaptureOpened]).

(** What the driver answers during one [capture_grab]. *)
Record grab_env := {
  hr_AcquireNextFrame : Z;
  hr_QueryInterface_texture : Z;
  hr_Map : Z;
  pData : list Z;              (* the mapped staging texture *)
  RowPitch : Z
}.

(** The copy out of the mapped texture, [memcpy] in bulk when the
    pitches agree and row by row otherwise. *)
Definition copy_rows (ctx : capture_ctx) (e : grab_env) : list Z :=
  let dest_stride := to_size_t (to_size_t (width ctx) * 4) in
  if to_size_t (RowPitch e) =? dest_stride then
    memcpy (buffer ctx) 0 (pData e)
      (to_size_t (dest_stride * to_size_t (height ctx)))
  else
    c_for 0 (height ctx) (λ y buf,
      memcpy buf (to_size_t (to_size_t y * dest_stride))
        (drop (Z.to_nat (to_uint (to_uint y * RowPitch e))) (pData e))
        dest_stride) (buffer ctx).

Definition capture_grab (ctx : capture_ctx) (e : grab_env)
    : option (list Z) * capture_ctx * list log_msg :=
  let hr := hr_AcquireNextFrame e in
  if hr =? DXGI_ERROR_WAIT_TIMEOUT then (Some (buffer ctx), ctx, [])
  else if hr =? DXGI_ERROR_ACCESS_LOST then (None, ctx, [LogAccessLost])
  else if FAILED hr then (None, ctx, [LogAcquireFailed hr])
  else
  let hr := hr_QueryInterface_texture e in
  if FAILED hr then (None, ctx, [LogQueryTextureFailed hr]) else
  let hr := hr_Map e in
  if FAILED hr then (None, ctx, [LogMapFailed hr]) else
  let buffer' := copy_rows ctx e in
  (Some buffer',
   {| width := width ctx; height := height ctx;
      buffer := buffer'; buffer_size := buffer_size ctx |}, []).

(** Environments of a grab, by outcome of AcquireNextFrame. *)
Definition timeout_env : grab_env :=
  {| hr_AcquireNextFrame := DXGI_ERROR_WAIT_TIMEOUT;
     hr_QueryInterface_texture := 0; hr_Map := 0; pData := []; RowPitch := 0 |}.

Definition access_lost_env : grab_env :=
  {| hr_AcquireNextFrame := DXGI_ERROR_ACCESS_LOST;
     hr_QueryInterface_texture := 0; hr_Map := 0; pData := []; RowPitch := 0 |}.

Definition frame_env (px : list Z) (pitch : Z) : grab_env :=
  {| hr_AcquireNextFrame := 0;
     hr_QueryInterface_texture := 0; hr_Map := 0; pData := px; RowPitch := pitch |}.

(** A run of [capture_grab] calls on one session: the context after
    the last call and the values returned, first call first. *)
Fixpoint grabs (ctx : capture_ctx) (es : list grab_env)
    : capture_ctx * list (option (list Z)) :=
  match es with
  | [] => (ctx, [])
  | e :: es' =>
      let '(r, ctx', _) := capture_grab ctx e in
      let '(ctx'', rs) := grabs ctx' es' in
      (ctx'', r :: rs)
  end.

(** An environment in which [capture_init] succeeds on a desktop of
    [w] by [h] pixels with allocator contents [heap]. *)
Definition init_ok_env (w h : Z) (hp : Z → Z) : init_env :=
  {| hr_CoInitializeEx := 0; calloc_ok := true; hr_D3D11CreateDevice := 0;
     hr_QueryInterface_device := 0; hr_GetAdapter := 0; hr_EnumOutputs := 0;
     desktop_left := 0; desktop_right := w; desktop_top := 0;
     desktop_bottom := h; hr_QueryInterface_output1 := 0;
     hr_DuplicateOutput := 0; hr_CreateTexture2D := 0; malloc_ok := true;
     heap := hp |}.

End CaptureWin.

#[export] Instance dxgi_backend : CaptureBackend := {|
  cap_ctx := CaptureWin.capture_ctx;
  cap_init_env := CaptureWin.init_env;
  cap_grab_env := CaptureWin.grab_env;
  cap_init := CaptureWin.capture_init;
  cap_width := CaptureWin.width;
  cap_height := CaptureWin.height;
  cap_grab := CaptureWin.capture_grab
|}.

(** ** main.c *)

Module Main.

Record timespec := { tv_sec : Z; tv_nsec : Z }.

(** One result of [getopt_long]; [OptFps] carries [atoi(optarg)]. *)
Inductive opt :=
  | OptDevice (optarg : string)
  | OptFps (n : Z)
  | OptHelp
  | OptOther.

(** What a run of [main] does, in order. *)
Inductive event :=
  | EvLog (m : log_msg)
  | EvCaptureInit
  | EvCaptureFree
  | EvVcamOpen
  | EvVcamClose
  | EvGrab
  | EvConvert
  | EvVcamWrite
  | EvUsleep (usec : Z)
  | EvNanosleep (ns : Z).

Inductive parsed :=
  | Proceed (device : string) (fps : Z)
  | Return (code : Z).

(** The [while ((opt = getopt_long(...)) != -1) switch (opt)] loop. *)
Fixpoint parse_opts (opts : list opt) (device : string) (fps : Z) : parsed :=
  match opts with
  | [] => Proceed device fps
  | OptDevice d :: rest => parse_opts rest d fps
  | OptFps n :: rest => parse_opts rest device n
  | OptHelp :: _ => Return 0
  | OptOther :: _ => Return 1
  end.

Definition default_device : string := "/dev/video10"%string.
Definition default_fps : Z := 15.

(** [fps < 1 || fps > 60] *)
Definition fps_out_of_range (fps : Z) : bool := (fps <? 1) || (fps >? 60).

(** [long frame_ns = 1000000000L / fps;] *)
Definition frame_interval (fps : Z) : Z := 1000000000 ÷ fps.

(** The width of [long]: 64 bits where vcam.c is built (Linux, LP64),
    32 bits where vcam_win.c is (Windows, LLP64). *)
Definition long_bits (s : Vcam.sink) : Z :=
  match s with
  | Vcam.V4L2 => 64
  | Vcam.WinStream => 32
  end.

(** The time between two clock readings, as a number. *)
Definition time_between (t0 t1 : timespec) : Z :=
  (tv_sec t1 - tv_sec t0) * 1000000000 + (tv_nsec t1 - tv_nsec t0).

(** [long elapsed = (t1.tv_sec - t0.tv_sec) * 1000000000L
                    + (t1.tv_nsec - t0.tv_nsec);] *)
Definition elapsed_ns (s : Vcam.sink) (t0 t1 : timespec) : Z :=
  to_signed (long_bits s)
    ((tv_sec t1 - tv_sec t0) * 1000000000 + (tv_nsec t1 - tv_nsec t0)).

(** The end of an iteration while [frame_ns - elapsed] fits in a
    [long]: [remaining = frame_ns - elapsed] and the [nanosleep] call
    guarded by [remaining > 0]. *)
Definition pace (frame_ns elapsed : Z) : list event :=
  let remaining := frame_ns - elapsed in
  if remaining >? 0 then [EvNanosleep remaining] else [].

(** The end of an iteration, for every value of [elapsed]:
    [long remaining = frame_ns - elapsed;
     if (remaining > 0) { ts.tv_nsec = remaining; nanosleep(&ts, NULL); }] *)
Definition pace_long (s : Vcam.sink) (frame_ns elapsed : Z) : list event :=
  let remaining := to_signed (long_bits s) (frame_ns - elapsed) in
  if remaining >? 0 then [EvNanosleep remaining] else [].

(** The arguments of the [nanosleep] calls in a list of events. *)
Fixpoint nanosleep_requests (evs : list event) : list Z :=
  match evs with
  | [] => []
  | EvNanosleep ns :: rest => ns :: nanosleep_requests rest
  | _ :: rest => nanosleep_requests rest
  end.

(** [x] is a value of [long]. *)
Definition fits_long (s : Vcam.sink) (x : Z) : Prop :=
  - 2 ^ (long_bits s - 1) ≤ x < 2 ^ (long_bits s - 1).

(** Nanoseconds of sleep of either kind requested by a list of
    events: [nanosleep] takes nanoseconds, [usleep] microseconds. *)
Fixpoint total_sleep_ns (evs : list event) : Z :=
  match evs with
  | [] => 0
  | EvNanosleep ns :: rest => ns + total_sleep_ns rest
  | EvUsleep usec :: rest => usec * 1000 + total_sleep_ns rest
  | _ :: rest => total_sleep_ns rest
  end.

Inductive status := Running | Stopped.

Inductive flow := Continue | Break | Blocked.

Section Pipeline.

Context {B : CaptureBackend}.
Variable sink : Vcam.sink.

(** What the environment supplies to one turn of the loop. *)
Record iter_env := {
  running : bool;              (* the flag when [while (running)] reads it *)
  t0 : timespec;
  grab : cap_grab_env;
  writes : list Vcam.write_outcome;
  t1 : timespec
}.

Record loop_state := {
  cap : cap_ctx;
  out : list Z;                (* bytes that reached the sink *)
  yuv_buf : list Z;
  frames : Z
}.

(** The body of [while (running)]. *)
Definition iteration (cam : Vcam.vcam_ctx) (w h yuv_size fps frame_ns : Z)
    (st : loop_state) (e : iter_env) : flow * loop_state * list event :=
  let '(bgra, cap', logs) := cap_grab (cap st) (grab e) in
  match bgra with
  | None =>
      (Continue,
       {| cap := cap'; out := out st; yuv_buf := yuv_buf st; frames := frames st |},
       EvGrab :: (EvLog <$> logs) ++ [EvLog LogCaptureRetry; EvUsleep 100000])
  | Some px =>
      let yuv := Convert.bgra_to_yuv420p px (yuv_buf st) w h in
      let ws := Vcam.vcam_write sink cam yuv yuv_size (writes e) (out st) in
      let st' := {| cap := cap'; out := Vcam.output ws; yuv_buf := yuv;
                    frames := frames st |} in
      let evs := EvGrab :: (EvLog <$> logs) ++ [EvConvert; EvVcamWrite] in
      match Vcam.ret ws with
      | None => (Blocked, st', evs)
      | Some r =>
          if r <? 0 then (Break, st', evs)
          else
            let frames' := frames st + 1 in
            let progress :=
              if frames' mod fps =? 0 then [EvLog (LogFramesSent frames')]
              else [] in
            (Continue,
             {| cap := cap'; out := Vcam.output ws; yuv_buf := yuv;
                frames := frames' |},
             evs ++ progress
               ++ pace_long sink frame_ns (elapsed_ns sink (t0 e) (t1 e)))
      end
  end.

(** [while (running) { ... }] over the turns the environment records;
    [Running] when they run out before the loop has stopped. *)
Fixpoint main_loop (cam : Vcam.vcam_ctx) (w h yuv_size fps frame_ns : Z)
    (st : loop_state) (envs : list iter_env)
    : status * loop_state * list event :=
  match envs with
  | [] => (Running, st, [])
  | e :: envs' =>
      if running e then
        let '(f, st', evs) := iteration cam w h yuv_size fps frame_ns st e in
        match f with
        | Continue =>
            let '(s, st'', evs') :=
              main_loop cam w h yuv_size fps frame_ns st' envs' in
            (s, st'', evs ++ evs')
        | Break => (Stopped, st', evs)
        | Blocked => (Running, st', evs)
        end
      else (Stopped, st, [])
  end.

Record main_env := {
  opts : list opt;
  init : cap_init_env;
  vopen : Vcam.open_env;
  yuv_malloc_ok : bool;
  yuv_heap : Z → Z;
  iters : list iter_env
}.

(** [main]: the exit code ([None] while the loop is still running) and
    everything done on the way. *)
Definition main (env : main_env) : option Z * list event :=
  match parse_opts (opts env) default_device default_fps with
  | Return code => (Some code, [EvLog LogUsage])
  | Proceed device fps =>
      if fps_out_of_range fps then (Some 1, [EvLog LogFpsRange])
      else
        let '(c, logs) := cap_init (init env) in
        let pre := EvCaptureInit :: (EvLog <$> logs) in
        match c with
        | None => (Some 1, pre)
        | Some cap0 =>
            let w := cap_width cap0 in
            let h := cap_height cap0 in
            match Vcam.vcam_open sink (vopen env) device w h with
            | None => (Some 1, pre ++ [EvVcamOpen; EvCaptureFree])
            | Some cam =>
                let yuv_size := Vcam.frame_size_of w h in
                if negb (yuv_malloc_ok env) then
                  (Some 1, pre ++ [EvVcamOpen; EvLog LogPerror;
                                   EvVcamClose; EvCaptureFree])
                else
                  let frame_ns := frame_interval fps in
                  let st0 := {| cap := cap0; out := [];
                                yuv_buf := malloc_block (yuv_heap env) yuv_size;
                                frames := 0 |} in
                  let '(s, st, evs) :=
                    main_loop cam w h yuv_size fps frame_ns st0 (iters env) in
                  let run := pre ++ [EvVcamOpen; EvLog LogStreaming] ++ evs in
                  match s with
                  | Running => (None, run)
                  | Stopped =>
                      (Some 0, run ++ [EvLog (LogStopping (frames st));
                                       EvVcamClose; EvCaptureFree])
                  end
            end
        end
  end.

End Pipeline.

(** A start of [main] on an X11 desktop of 2 by 2 pixels with the
    options [opts], no loop turn recorded. *)
Definition x11_start (opts : list opt) : @main_env x11_backend :=
  @Build_main_env x11_backend opts
    {| CaptureX11.calloc_ok := true; CaptureX11.display_ok := true;
       CaptureX11.screen_width := 2; CaptureX11.screen_height := 2;
       CaptureX11.shm_extension := false; CaptureX11.shm_image_ok := false;
       CaptureX11.shmid := 0; CaptureX11.shm_data := [] |}
    {| Vcam.calloc_ok := true; Vcam.open_fd := 3; Vcam.config_ret := 0 |}
    true (λ _, 0) [].

(** One turn of the loop on that desktop: the server delivers the
    pixels [px] and the device answers the write calls with [ws]. *)
Definition x11_turn (px : list Z) (ws : list Vcam.write_outcome)
    (t0 t1 : timespec) : @iter_env x11_backend :=
  @Build_iter_env x11_backend true t0
    {| CaptureX11.screen := px; CaptureX11.get_image_ok := true |} ws t1.

(** The turn in which the signal handler has cleared [running]. *)
Definition x11_signalled : @iter_env x11_backend :=
  @Build_iter_env x11_backend false {| tv_sec := 0; tv_nsec := 0 |}
    {| CaptureX11.screen := []; CaptureX11.get_image_ok := true |} []
    {| tv_sec := 0; tv_nsec := 0 |}.

(** The turn that delivers a white frame in two writes around an
    EINTR. *)
Definition x11_white_turn : @iter_env x11_backend :=
  x11_turn (Convert.solid_bgra 4 255 255 255 255)
    [Vcam.Accepts 4; Vcam.Fails Vcam.EINTR; Vcam.Accepts 4096]
    {| tv_sec := 10; tv_nsec := 0 |} {| tv_sec := 10; tv_nsec := 6666666 |}.

(** A turn in which XGetImage fails; the clock is read once, before
    the grab. *)
Definition x11_failed_turn : @iter_env x11_backend :=
  @Build_iter_env x11_backend true {| tv_sec := 10; tv_nsec := 0 |}
    {| CaptureX11.screen := []; CaptureX11.get_image_ok := false |} []
    {| tv_sec := 10; tv_nsec := 6666666 |}.

(** A complete run: one white frame at the default 15 fps, taken by
    the device in two writes around an EINTR, then SIGINT. *)
Definition x11_one_frame_run : @main_env x11_backend :=
  @Build_main_env x11_backend []
    (init (x11_start []))
    (vopen (x11_start []))
    true (λ _, 0)
    [x11_turn (Convert.solid_bgra 4 255 255 255 255)
       [Vcam.Accepts 4; Vcam.Fails Vcam.EINTR; Vcam.Accepts 4096]
       {| tv_sec := 10; tv_nsec := 0 |} {| tv_sec := 10; tv_nsec := 6666666 |};
     x11_signalled].

(** The sink and the loop state of that run when the loop is entered. *)
Definition x11_cam : Vcam.vcam_ctx :=
  {| Vcam.fd := 3; Vcam.is_stdout := false; Vcam.width := 2;
     Vcam.height := 2; Vcam.frame_size := 6 |}.

Definition x11_state0 : @loop_state x11_backend :=
  @Build_loop_state x11_backend
    {| CaptureX11.width := 2; CaptureX11.height := 2;
       CaptureX11.use_shm := false; CaptureX11.img := None |}
    [] (replicate 6 0) 0.

(** A turn of the loop on Windows in which AcquireNextFrame reports
    that access to the duplication was lost. *)
Definition access_lost_turn (t : timespec) : @iter_env dxgi_backend :=
  @Build_iter_env dxgi_backend true t CaptureWin.access_lost_env [] t.

(** What the loop does in such a turn. *)
Definition access_lost_events : list event :=
  [EvGrab; EvLog LogAccessLost; EvLog LogCaptureRetry; EvUsleep 100000].

End Main.

(** ** The reference conversion of the specification *)

Module ConvertSpec.

(** [clamp(x, lo, hi)] *)
Definition clamp (x lo hi : Z) : Z := Z.max lo (Z.min hi x).

(** A BGRA pixel holds blue, green, red and alpha, in this order. *)
Definition blue (bgra : list Z) (width i j : Z) : Z := load bgra (4 * (j * width + i)).
Definition green (bgra : list Z) (width i j : Z) : Z := load bgra (4 * (j * width + i) + 1).
Definition red (bgra : list Z) (width i j : Z) : Z := load bgra (4 * (j * width + i) + 2).

Definition Y (R G B : Z) : Z :=
  clamp (Z.shiftr (66 * R + 129 * G + 25 * B + 128) 8 + 16) 0 255.
Definition U (R G B : Z) : Z :=
  clamp (Z.shiftr (-38 * R - 74 * G + 112 * B + 128) 8 + 128) 0 255.
Definition V (R G B : Z) : Z :=
  clamp (Z.shiftr (112 * R - 94 * G - 18 * B + 128) 8 + 128) 0 255.

(** A row-major plane of [width] by [height] samples [f i j]. *)
Definition plane (f : Z → Z → Z) (width height : Z) : list Z :=
  mjoin ((λ j, (λ i, f i j) <$> seqZ 0 width) <$> seqZ 0 height).

Definition luma_plane (bgra : list Z) (width height : Z) : list Z :=
  plane (λ i j, Y (red bgra width i j) (green bgra width i j) (blue bgra width i j))
    width height.

(** One chroma sample per 2x2 block, taken from the block's top-left
    pixel. *)
Definition cb_plane (bgra : list Z) (width height : Z) : list Z :=
  plane (λ ci cj, U (red bgra width (2 * ci) (2 * cj))
                    (green bgra width (2 * ci) (2 * cj))
                    (blue bgra width (2 * ci) (2 * cj)))
    (width / 2) (height / 2).

Definition cr_plane (bgra : list Z) (width height : Z) : list Z :=
  plane (λ ci cj, V (red bgra width (2 * ci) (2 * cj))
                    (green bgra width (2 * ci) (2 * cj))
                    (blue bgra width (2 * ci) (2 * cj)))
    (width / 2) (height / 2).

(** Luma plane, then chroma-blue, then chroma-red. *)
Definition convert (bgra : list Z) (width height : Z) : list Z :=
  luma_plane bgra width height ++ cb_plane bgra width height
    ++ cr_plane bgra width height.

End ConvertSpec.

(** ** vcam_close (vcam.c, vcam_win.c) *)

Module VcamClose.

(** [vcam_close(ctx)]: the descriptors handed to [close] / [_close];
    [None] is the NULL context. *)
Definition vcam_close (s : Vcam.sink) (ctx : option Vcam.vcam_ctx) : list Z :=
  match ctx with
  | None => []
  | Some c =>
      match s with
      | Vcam.V4L2 => if Vcam.fd c >=? 0 then [Vcam.fd c] else []
      | Vcam.WinStream =>
          if (Vcam.fd c >=? 0) && negb (Vcam.is_stdout c) then [Vcam.fd c]
          else []
      end
  end.

End VcamClose.

(** ** platform.h: the Windows shims *)

Module Platform.

(** [(long)x] and [(DWORD)x] where [long] is 32 bits wide. *)
Definition to_long (x : Z) : Z := to_hresult (x mod 2 ^ 32).
Definition to_dword (x : Z) : Z := x mod 2 ^ 32.

(** [clock_gettime(CLOCK_MONOTONIC, ts)] from the performance counter:
    [freq] ticks per second, [count] ticks so far. *)
Definition clock_gettime (freq count : Z) : Main.timespec :=
  {| Main.tv_sec := to_long (count ÷ freq);
     Main.tv_nsec := to_long (Z.rem count freq * 1000000000 ÷ freq) |}.

(** [nanosleep(req, rem)]: the argument of the [Sleep] call. *)
Definition nanosleep (req : Main.timespec) : Z :=
  let ms := to_dword (Main.tv_sec req * 1000 + Main.tv_nsec req ÷ 1000000) in
  if (ms =? 0) && (Main.tv_nsec req >? 0) then 1 else ms.

(** [usleep(usec)]: the argument of the [Sleep] call. *)
Definition usleep (usec : Z) : Z :=
  let ms := usec ÷ 1000 in
  if (ms =? 0) && (usec >? 0) then 1 else ms.

(** The [struct timespec] that main.c hands to [nanosleep]. *)
Definition pacing_request (remaining : Z) : Main.timespec :=
  {| Main.tv_sec := 0; Main.tv_nsec := remaining |}.

End Platform.

(** ** getopt_win.h: the bundled getopt_long *)

Module GetoptWin.

Definition no_argument : Z := 0.
Definition required_argument : Z := 1.
Definition optional_argument : Z := 2.

(** [struct option]; [getopt_long] never reads the [flag] member. *)
Record long_option := {
  name : string;
  has_arg : Z;
  val : Z
}.

(** The file-scope variables [optarg], [optind] and [optopt];
    [opterr] stays 1. *)
Record state := {
  optarg : option string;
  optind : Z;
  optopt : Z
}.

Definition initial : state := {| optarg := None; optind := 1; optopt := 0 |}.

(** The lines written to stderr. *)
Inductive diagnostic :=
  | RequiresArgument
  | AllowsNoArgument
  | Unrecognized
  | InvalidOption.

(** The value of a [char] holding the byte [c]; [char] is signed on
    the Windows targets. *)
Definition char_code (c : ascii) : Z :=
  let n := Z.of_nat (nat_of_ascii c) in
  if n <? 128 then n else n - 256.

(** ['?'] *)
Definition QUESTION : Z := 63.

(** [s[k]], the terminating NUL at the end of [s]. *)
Definition char_at (s : string) (k : nat) : ascii :=
  match String.get k s with
  | Some c => c
  | None => Ascii.zero
  end.

(** [s + k] for [k] within the string. *)
Fixpoint advance (k : nat) (s : string) : string :=
  match k, s with
  | S k', String _ s' => advance k' s'
  | _, _ => s
  end.

(** [strchr(s, c)]: the rest of [s] from the first [c] on. *)
Fixpoint strchr (s : string) (c : ascii) : option string :=
  match s with
  | EmptyString => if Ascii.eqb c Ascii.zero then Some EmptyString else None
  | String x s' => if Ascii.eqb x c then Some s else strchr s' c
  end.

(** [strncmp(a, b, n) == 0] *)
Fixpoint strncmp_eq (a b : string) (n : nat) {struct n} : bool :=
  match n with
  | O => true
  | S n' =>
      match a, b with
      | EmptyString, EmptyString => true
      | String x a', String y b' => Ascii.eqb x y && strncmp_eq a' b' n'
      | _, _ => false
      end
  end.

(** [argv[k]], NULL at [argv[argc]]. *)
Definition arg_at (argv : list string) (k : Z) : option string :=
  argv !! Z.to_nat k.

(** The [for] loop over [longopts]: the first entry whose name is the
    [nlen] characters at [nm]. *)
Fixpoint find_long (longopts : list long_option) (nm : string) (nlen : nat)
    : option long_option :=
  match longopts with
  | [] => None
  | o :: rest =>
      if strncmp_eq (name o) nm nlen && (String.length (name o) =? nlen)%nat
      then Some o
      else find_long rest nm nlen
  end.

Definition getopt_long (argv : list string) (optstring : string)
    (longopts : list long_option) (st : state)
    : Z * state * list diagnostic :=
  let argc := Z.of_nat (length argv) in
  if optind st >=? argc then (-1, st, []) else
  match arg_at argv (optind st) with
  | None => (-1, st, [])
  | Some arg =>
      if Ascii.eqb (char_at arg 0) "-" && Ascii.eqb (char_at arg 1) "-"
         && negb (Ascii.eqb (char_at arg 2) Ascii.zero)
      then
        let nm := advance 2 arg in
        let eq := strchr nm "=" in
        let nlen :=
          match eq with
          | Some rest => (String.length nm - String.length rest)%nat
          | None => String.length nm
          end in
        match find_long longopts nm nlen with
        | Some o =>
            let optind1 := optind st + 1 in
            if has_arg o =? required_argument then
              match eq with
              | Some rest =>
                  (val o,
                   {| optarg := Some (advance 1 rest); optind := optind1;
                      optopt := optopt st |}, [])
              | None =>
                  if optind1 <? argc then
                    (val o,
                     {| optarg := arg_at argv optind1; optind := optind1 + 1;
                        optopt := optopt st |}, [])
                  else
                    (QUESTION,
                     {| optarg := optarg st; optind := optind1;
                        optopt := optopt st |}, [RequiresArgument])
              end
            else if bool_decide (is_Some eq) && (has_arg o =? no_argument) then
              (QUESTION,
               {| optarg := optarg st; optind := optind1; optopt := optopt st |},
               [AllowsNoArgument])
            else
              (val o,
               {| optarg := optarg st; optind := optind1; optopt := optopt st |},
               [])
        | None =>
            (QUESTION,
             {| optarg := optarg st; optind := optind st + 1;
                optopt := optopt st |}, [Unrecognized])
        end
      else if Ascii.eqb (char_at arg 0) "-"
              && negb (Ascii.eqb (char_at arg 1) Ascii.zero)
      then
        let c := char_at arg 1 in
        match strchr optstring c with
        | None =>
            (QUESTION,
             {| optarg := optarg st; optind := optind st + 1;
                optopt := char_code c |}, [InvalidOption])
        | Some p =>
            let optind1 := optind st + 1 in
            if Ascii.eqb (char_at p 1) ":" then
              if negb (Ascii.eqb (char_at arg 2) Ascii.zero) then
                (char_code c,
                 {| optarg := Some (advance 2 arg); optind := optind1;
                    optopt := optopt st |}, [])
              else if optind1 <? argc then
                (char_code c,
                 {| optarg := arg_at argv optind1; optind := optind1 + 1;
                    optopt := optopt st |}, [])
              else
                (QUESTION,
                 {| optarg := optarg st; optind := optind1;
                    optopt := char_code c |}, [RequiresArgument])
            else
              (char_code c,
               {| optarg := optarg st; optind := optind1; optopt := optopt st |},
               [])
        end
      else (-1, st, [])
  end.

(** [while ((opt = getopt_long(...)) != -1)]: the options returned
    with the [optarg] each one left, [None] when [fuel] calls did not
    reach the -1. *)
Fixpoint scan (fuel : nat) (argv : list string) (optstring : string)
    (longopts : list long_option) (st : state)
    : option (list (Z * option string)) :=
  match fuel with
  | O => None
  | S fuel' =>
      let '(r, st', _) := getopt_long argv optstring longopts st in
      if r =? -1 then Some []
      else cons (r, optarg st') <$> scan fuel' argv optstring longopts st'
  end.

(** The tables of main.c: ["d:f:h"] and [long_opts]. *)
Definition screen2cam_optstring : string := "d:f:h".
Definition screen2cam_longopts : list long_option :=
  [ {| name := "device"; has_arg := required_argument; val := char_code "d" |};
    {| name := "fps"; has_arg := required_argument; val := char_code "f" |};
    {| name := "help"; has_arg := no_argument; val := char_code "h" |} ].

End GetoptWin.

(** ** capture_win.c: the objects capture_init acquires and
    capture_free releases *)

Module CaptureWinResources.

(** The COM objects and heap blocks of a capture session. *)
Inductive resource :=
  | Ctx            (* the calloc'ed struct capture_ctx *)
  | Device         (* ctx->device *)
  | Context        (* ctx->context *)
  | DxgiDevice
  | Adapter
  | Output
  | Output1
  | Duplication    (* ctx->duplication *)
  | Staging        (* ctx->staging *)
  | Buffer.        (* ctx->buffer *)

#[export] Instance resource_eq_dec : EqDecision resource.
Proof. solve_decision. Defined.

Inductive res_event :=
  | Acquire (r : resource)
  | Release (r : resource).

(** Which members of [struct capture_ctx] are non-NULL. *)
Record handles := {
  device : bool;
  context : bool;
  duplication : bool;
  staging : bool;
  buffer : bool
}.

(** [capture_free(ctx)]; [None] is the NULL context. *)
Definition capture_free (ctx : option handles) : list res_event :=
  match ctx with
  | None => []
  | Some c =>
      (if staging c then [Release Staging] else [])
      ++ (if duplication c then [Release Duplication] else [])
      ++ (if context c then [Release Context] else [])
      ++ (if device c then [Release Device] else [])
      ++ (if buffer c then [Release Buffer] else [])
      ++ [Release Ctx]
  end.

(** [capture_init()] as a sequence of acquisitions and releases: the
    handles of the context it returns, NULL as [None]. *)
Definition capture_init (e : CaptureWin.init_env)
    : option handles * list res_event :=
  let hr := CaptureWin.hr_CoInitializeEx e in
  if CaptureWin.FAILED hr && negb (hr =? CaptureWin.S_FALSE)
     && negb (hr =? CaptureWin.RPC_E_CHANGED_MODE)
  then (None, [])
  else if negb (CaptureWin.calloc_ok e) then (None, [])
  else
  let t := [Acquire Ctx] in
  if CaptureWin.FAILED (CaptureWin.hr_D3D11CreateDevice e)
  then (None, t ++ [Release Ctx]) else
  let t := t ++ [Acquire Device; Acquire Context] in
  let c := {| device := true; context := true; duplication := false;
              staging := false; buffer := false |} in
  if CaptureWin.FAILED (CaptureWin.hr_QueryInterface_device e)
  then (None, t ++ capture_free (Some c)) else
  let t := t ++ [Acquire DxgiDevice] in
  if CaptureWin.FAILED (CaptureWin.hr_GetAdapter e)
  then (None, t ++ [Release DxgiDevice] ++ capture_free (Some c)) else
  let t := t ++ [Acquire Adapter; Release DxgiDevice] in
  if CaptureWin.FAILED (CaptureWin.hr_EnumOutputs e)
  then (None, t ++ [Release Adapter] ++ capture_free (Some c)) else
  let t := t ++ [Acquire Output; Release Adapter] in
  if CaptureWin.FAILED (CaptureWin.hr_QueryInterface_output1 e)
  then (None, t ++ [Release Output] ++ capture_free (Some c)) else
  let t := t ++ [Acquire Output1; Release Output] in
  if CaptureWin.FAILED (CaptureWin.hr_DuplicateOutput e)
  then (None, t ++ [Release Output1] ++ capture_free (Some c)) else
  let t := t ++ [Acquire Duplication; Release Output1] in
  let c := {| device := true; context := true; duplication := true;
              staging := false; buffer := false |} in
  if CaptureWin.FAILED (CaptureWin.hr_CreateTexture2D e)
  then (None, t ++ capture_free (Some c)) else
  let t := t ++ [Acquire Staging] in
  let c := {| device := true; context := true; duplication := true;
              staging := true; buffer := false |} in
  if negb (CaptureWin.malloc_ok e)
  then (None, t ++ capture_free (Some c))
  else
    (Some {| device := true; context := true; duplication := true;
             staging := true; buffer := true |},
     t ++ [Acquire Buffer]).

(** The objects held after a sequence of events; [None] when an object
    is acquired twice or released while not held. *)
Fixpoint held_after (held : list resource) (evs : list res_event)
    : option (list resource) :=
  match evs with
  | [] => Some held
  | Acquire r :: evs' =>
      if bool_decide (r ∈ held) then None else held_after (r :: held) evs'
  | Release r :: evs' =>
      if bool_decide (r ∈ held)
      then held_after (filter (λ x, x ≠ r) held) evs'
      else None
  end.

(** A start in which DuplicateOutput is refused (another program
    holds the duplication). *)
Definition duplication_denied : CaptureWin.init_env :=
  {| CaptureWin.hr_CoInitializeEx := 0; CaptureWin.calloc_ok := true;
     CaptureWin.hr_D3D11CreateDevice := 0;
     CaptureWin.hr_QueryInterface_device := 0;
     CaptureWin.hr_GetAdapter := 0; CaptureWin.hr_EnumOutputs := 0;
     CaptureWin.desktop_left := 0; CaptureWin.desktop_right := 2;
     CaptureWin.desktop_top := 0; CaptureWin.desktop_bottom := 2;
     CaptureWin.hr_QueryInterface_output1 := 0;
     CaptureWin.hr_DuplicateOutput := to_hresult 0x80070005;
     CaptureWin.hr_CreateTexture2D := 0; CaptureWin.malloc_ok := true;
     CaptureWin.heap := λ _, 0 |}.

End CaptureWinResources.

(** ** Counting the events of a run of main *)

Module MainTrace.

#[export] Instance log_msg_eq_dec : EqDecision log_msg.
Proof. solve_decision. Defined.

#[export] Instance event_eq_dec : EqDecision Main.event.
Proof. solve_decision. Defined.

(** The events of the body of the loop, as opposed to those of
    start-up and shutdown. *)
Definition loop_event (ev : Main.event) : bool :=
  match ev with
  | Main.EvLog _ | Main.EvGrab | Main.EvConvert | Main.EvVcamWrite
  | Main.EvUsleep _ | Main.EvNanosleep _ => true
  | Main.EvCaptureInit | Main.EvCaptureFree | Main.EvVcamOpen
  | Main.EvVcamClose => false
  end.

(** The options that set a value, as opposed to those that end the
    option loop. *)
Definition is_setting (o : Main.opt) : bool :=
  match o with
  | Main.OptDevice _ | Main.OptFps _ => true
  | Main.OptHelp | Main.OptOther => false
  end.

(** How often [ev] occurs in [evs]. *)
Definition occurrences (ev : Main.event) (evs : list Main.event) : nat :=
  length (filter (λ x, x = ev) evs).

End MainTrace.

(** * Proofs *)

(** ** Integer and buffer facts *)

(** Linear arithmetic with division and remainder by constants. *)
Ltac div_lia := Z.div_mod_to_equations; lia.

Lemma row_major_inj (w j i j' i' : Z) :
  0 ≤ i < w → 0 ≤ i' < w → j * w + i = j' * w + i' → j = j' ∧ i = i'.
Proof.
  intros Hi Hi' E.
  assert (j = j') as ->; [|lia].
  destruct (Z.lt_trichotomy j j') as [L|[?|L]]; [|done|].
  - assert ((j + 1) * w ≤ j' * w) by (apply Z.mul_le_mono_nonneg_r; lia). lia.
  - assert ((j' + 1) * w ≤ j * w) by (apply Z.mul_le_mono_nonneg_r; lia). lia.
Qed.

Lemma row_major_bound (w h j i : Z) :
  0 ≤ i < w → 0 ≤ j < h → 0 ≤ j * w + i < w * h.
Proof.
  intros Hi Hj.
  assert ((j + 1) * w ≤ h * w) by (apply Z.mul_le_mono_nonneg_r; lia).
  assert (0 ≤ j * w) by (apply Z.mul_nonneg_nonneg; lia).
  lia.
Qed.

Lemma land_1_even (j : Z) : 0 ≤ j → (Z.land j 1 =? 0) = (j mod 2 =? 0).
Proof.
  intros Hj. change 1 with (Z.ones 1) at 1.
  by rewrite Z.land_ones by lia.
Qed.

Lemma quot_2_div (j : Z) : 0 ≤ j → j ÷ 2 = j / 2.
Proof. intros Hj. apply Z.quot_div_nonneg; lia. Qed.

Lemma store_length (p : list Z) (k v : Z) : length (store p k v) = length p.
Proof. apply length_insert. Qed.

Lemma store_lookup_eq (p : list Z) (k v : Z) :
  (Z.to_nat k < length p)%nat → store p k v !! Z.to_nat k = Some v.
Proof. apply list_lookup_insert_eq. Qed.

Lemma store_lookup_ne (p : list Z) (k v : Z) (n : nat) :
  n ≠ Z.to_nat k → store p k v !! n = p !! n.
Proof. intros Hn. by apply list_lookup_insert_ne. Qed.

(** ** A run of stores: the last store to a cell decides it *)

Section LastStore.

Context {P : Type} `{EqDecision P}.
Variable body : P → list Z → list Z.
Variable stores_to : P → nat → Prop.
Hypothesis body_length : ∀ p d, length (body p d) = length d.
Hypothesis body_frame : ∀ p d n, ¬ stores_to p n → body p d !! n = d !! n.

Lemma run_length (ps : list P) (d : list Z) :
  length (foldl (λ d p, body p d) d ps) = length d.
Proof.
  revert d. induction ps as [|p ps IH]; intros d; simpl; [done|].
  by rewrite IH, body_length.
Qed.

Lemma run_untouched (ps : list P) (d : list Z) (n : nat) :
  (∀ p, p ∈ ps → ¬ stores_to p n) →
  foldl (λ d p, body p d) d ps !! n = d !! n.
Proof.
  revert d. induction ps as [|p ps IH]; intros d Hps; simpl; [done|].
  rewrite IH.
  - apply body_frame, Hps. left.
  - intros q Hq. apply Hps. by right.
Qed.

Lemma run_stored (ps : list P) (d : list Z) (n : nat) (p : P) (v : Z) :
  p ∈ ps →
  (∀ q, q ∈ ps → q ≠ p → ¬ stores_to q n) →
  (∀ d', length d' = length d → body p d' !! n = Some v) →
  foldl (λ d p, body p d) d ps !! n = Some v.
Proof.
  intros Hp Hothers Hbody.
  destruct (list_elem_of_split_r ps p Hp) as (l1 & l2 & -> & Hl2).
  rewrite foldl_app. simpl. rewrite run_untouched.
  - apply Hbody, run_length.
  - intros q Hq. apply Hothers.
    + rewrite elem_of_app. right. by right.
    + by intros ->.
Qed.

End LastStore.

Lemma run_ext {P : Type} (f g : P → list Z → list Z) (ps : list P) :
  (∀ p d, p ∈ ps → f p d = g p d) →
  ∀ d, foldl (λ d p, f p d) d ps = foldl (λ d p, g p d) d ps.
Proof.
  induction ps as [|p ps IH]; intros Hfg d; simpl; [done|].
  rewrite Hfg by left. apply IH. intros q d' Hq. apply Hfg. by right.
Qed.

(** The two nested loops visit [positions] in order. *)
Lemma nested_for_positions {S : Type} (body : Z → Z → S → S) (w h : Z) (s : S) :
  c_for 0 h (λ j s, c_for 0 w (λ i s, body j i s) s) s
  = foldl (λ s p, body p.1 p.2 s) s (Convert.positions w h).
Proof.
  unfold c_for, Convert.positions. rewrite !Z.sub_0_r.
  revert s. induction (seqZ 0 h) as [|j js IH]; intros s; [done|].
  rewrite bind_cons, foldl_app, foldl_fmap. simpl. apply IH.
Qed.

Lemma positions_NoDup (w h : Z) : NoDup (Convert.positions w h).
Proof.
  unfold Convert.positions. apply NoDup_bind.
  - intros j1 j2 [j i] _ _ H1 H2.
    apply list_elem_of_fmap in H1 as (? & [= -> _] & _).
    by apply list_elem_of_fmap in H2 as (? & [= -> _] & _).
  - intros j _. apply NoDup_fmap_2; [|apply NoDup_seqZ].
    by intros i1 i2 [= ->].
  - apply NoDup_seqZ.
Qed.

Lemma elem_of_positions (w h j i : Z) :
  (j, i) ∈ Convert.positions w h ↔ 0 ≤ j < h ∧ 0 ≤ i < w.
Proof.
  unfold Convert.positions. rewrite list_elem_of_bind. split.
  - intros (j' & Hi & Hj). apply list_elem_of_fmap in Hi as (i' & [= -> ->] & Hi).
    apply elem_of_seqZ in Hi, Hj. lia.
  - intros [Hj Hi]. exists j. split.
    + apply list_elem_of_fmap. exists i. split; [done|]. apply elem_of_seqZ. lia.
    + apply elem_of_seqZ. lia.
Qed.

(** ** convert.c: what each output byte holds *)

Lemma half_range (n k : Z) : n mod 2 = 0 → 0 ≤ k < n → 0 ≤ k ÷ 2 < n ÷ 2.
Proof.
  intros Hn Hk. rewrite !quot_2_div by lia.
  div_lia.
Qed.

Lemma chroma_index_nonneg (w j i : Z) :
  0 ≤ w → 0 ≤ j → 0 ≤ i → 0 ≤ (j ÷ 2) * (w ÷ 2) + i ÷ 2.
Proof.
  intros Hw Hj Hi. rewrite !quot_2_div by lia.
  assert (0 ≤ j / 2) by (apply Z.div_pos; lia).
  assert (0 ≤ w / 2) by (apply Z.div_pos; lia).
  assert (0 ≤ i / 2) by (apply Z.div_pos; lia).
  assert (0 ≤ (j / 2) * (w / 2)) by (apply Z.mul_nonneg_nonneg; lia).
  lia.
Qed.

Lemma chroma_index_bound (w h j i : Z) :
  w mod 2 = 0 → h mod 2 = 0 → 0 ≤ i < w → 0 ≤ j < h →
  0 ≤ (j ÷ 2) * (w ÷ 2) + i ÷ 2 < (w ÷ 2) * (h ÷ 2).
Proof.
  intros Hw Hh Hi Hj.
  apply row_major_bound; by apply half_range.
Qed.

Section ConvertStores.

Variables (src : list Z) (w h : Z).

Lemma loop_body_length (p : Z * Z) (d : list Z) :
  length (Convert.loop_body src w h p d) = length d.
Proof.
  unfold Convert.loop_body, Convert.pixel_body.
  destruct ((Z.land p.1 1 =? 0) && (Z.land p.2 1 =? 0));
    by rewrite ?store_length.
Qed.

Lemma loop_body_frame (p : Z * Z) (d : list Z) (n : nat) :
  ¬ Convert.touches w h p n → Convert.loop_body src w h p d !! n = d !! n.
Proof.
  destruct p as [j i]. unfold Convert.touches, Convert.loop_body, Convert.pixel_body.
  simpl. intros Hn.
  destruct ((Z.land j 1 =? 0) && (Z.land i 1 =? 0)).
  - rewrite !store_lookup_ne; [done|intros ->; apply Hn..]; auto.
  - rewrite store_lookup_ne; [done|]. intros ->. apply Hn. auto.
Qed.

Lemma convert_as_run (dst : list Z) :
  Convert.bgra_to_yuv420p src dst w h
  = foldl (λ d p, Convert.loop_body src w h p d) dst (Convert.positions w h).
Proof.
  unfold Convert.bgra_to_yuv420p.
  by rewrite (nested_for_positions
    (Convert.pixel_body src w (w ÷ 2) (w * h) (w * h + (w ÷ 2) * (h ÷ 2)))).
Qed.

Lemma convert_length (dst : list Z) :
  length (Convert.bgra_to_yuv420p src dst w h) = length dst.
Proof. rewrite convert_as_run. apply run_length, loop_body_length. Qed.

(** The loop body reads the blue, green and red byte of its pixel and
    nothing else. *)
Lemma loop_body_alpha (src' : list Z) (j i : Z) (d : list Z) :
  0 ≤ j * w + i →
  (∀ k, 0 ≤ k → k mod 4 ≠ 3 → load src' k = load src k) →
  Convert.loop_body src' w h (j, i) d = Convert.loop_body src w h (j, i) d.
Proof.
  intros Hidx Hsame. unfold Convert.loop_body, Convert.pixel_body. simpl.
  rewrite !Hsame; [done|..]; try lia; div_lia.
Qed.

(** A pixel with an odd row or column stores its luma byte only. *)
Lemma pixel_body_odd (j i : Z) (d : list Z) :
  0 ≤ j → 0 ≤ i → j mod 2 ≠ 0 ∨ i mod 2 ≠ 0 →
  Convert.loop_body src w h (j, i) d = store d (j * w + i) (Convert.pixel_y src w i j).
Proof.
  intros Hj Hi Hodd. unfold Convert.loop_body, Convert.pixel_body. simpl.
  rewrite !land_1_even by done.
  destruct (Z.eqb_spec (j mod 2) 0), (Z.eqb_spec (i mod 2) 0); simpl;
    try done; lia.
Qed.

Hypothesis Hw : 0 ≤ w.
Hypothesis Hh : 0 ≤ h.

(** The luma byte of pixel [(i, j)] is at offset [j * w + i]. *)
Lemma convert_luma_at (dst : list Z) (i j : Z) :
  (Z.to_nat (w * h) ≤ length dst)%nat →
  0 ≤ i < w → 0 ≤ j < h →
  Convert.bgra_to_yuv420p src dst w h !! Z.to_nat (j * w + i)
  = Some (Convert.pixel_y src w i j).
Proof.
  intros Hlen Hi Hj. rewrite convert_as_run.
  pose proof (row_major_bound w h j i Hi Hj) as Hk.
  apply (run_stored (Convert.loop_body src w h) (Convert.touches w h) loop_body_length
           loop_body_frame _ _ _ (j, i)).
  - by apply elem_of_positions.
  - intros [j' i'] Hq Hne. apply elem_of_positions in Hq as [Hj' Hi'].
    pose proof (row_major_bound w h j' i' Hi' Hj').
    pose proof (chroma_index_nonneg w j' i').
    assert (0 ≤ (w ÷ 2) * (h ÷ 2)).
    { rewrite !quot_2_div by lia.
      apply Z.mul_nonneg_nonneg; apply Z.div_pos; lia. }
    intros [E|[_ [E|E]]]; [|lia..].
    apply Hne. apply Z2Nat.inj in E; [|lia..].
    symmetry in E. apply row_major_inj in E; [|lia..]. by destruct E as [-> ->].
  - intros d' Hd'. unfold Convert.loop_body, Convert.pixel_body. simpl.
    pose proof (chroma_index_nonneg w j i).
    assert (0 ≤ (w ÷ 2) * (h ÷ 2)).
    { rewrite !quot_2_div by lia.
      apply Z.mul_nonneg_nonneg; apply Z.div_pos; lia. }
    destruct ((Z.land j 1 =? 0) && (Z.land i 1 =? 0)).
    + rewrite !store_lookup_ne by lia. apply store_lookup_eq. lia.
    + apply store_lookup_eq. lia.
Qed.

Hypothesis Hw2 : w mod 2 = 0.
Hypothesis Hh2 : h mod 2 = 0.

Lemma even_coordinate (c : Z) : 0 ≤ c → (Z.land (2 * c) 1 =? 0) = true.
Proof.
  intros Hc. rewrite land_1_even by lia. apply Z.eqb_eq.
  div_lia.
Qed.

(** The store pattern of the top-left pixel of block [(ci, cj)]. *)
Lemma block_stores (d : list Z) (ci cj : Z) :
  0 ≤ ci → 0 ≤ cj →
  Convert.loop_body src w h (2 * cj, 2 * ci) d
  = store (store (store d (2 * cj * w + 2 * ci)
                   (Convert.pixel_y src w (2 * ci) (2 * cj)))
            (w * h + (cj * (w ÷ 2) + ci))
            (Convert.pixel_u src w (2 * ci) (2 * cj)))
      (w * h + (w ÷ 2) * (h ÷ 2) + (cj * (w ÷ 2) + ci))
      (Convert.pixel_v src w (2 * ci) (2 * cj)).
Proof.
  intros Hci Hcj. unfold Convert.loop_body, Convert.pixel_body. simpl.
  rewrite !even_coordinate by done. simpl.
  replace (2 * cj ÷ 2) with cj by (rewrite quot_2_div by lia; div_lia).
  replace (2 * ci ÷ 2) with ci by (rewrite quot_2_div by lia; div_lia).
  done.
Qed.

(** No pixel other than the top-left one of block [(ci, cj)] stores to
    the block's cell of a chroma plane at offset [base]. *)
Lemma chroma_cell_owner (ci cj j' i' : Z) :
  0 ≤ ci < w ÷ 2 → 0 ≤ cj < h ÷ 2 →
  0 ≤ j' < h → 0 ≤ i' < w →
  (Z.land j' 1 =? 0) && (Z.land i' 1 =? 0) = true →
  (j' ÷ 2) * (w ÷ 2) + i' ÷ 2 = cj * (w ÷ 2) + ci →
  (j', i') = (2 * cj, 2 * ci).
Proof.
  intros Hci Hcj Hj' Hi' Hpar E.
  apply andb_true_iff in Hpar as [Pj Pi].
  rewrite land_1_even in Pj, Pi by lia. apply Z.eqb_eq in Pj, Pi.
  apply row_major_inj in E as [Ej Ei]; [|by apply half_range|done].
  rewrite quot_2_div in Ej, Ei by lia.
  f_equal; div_lia.
Qed.

(** Only the top-left pixel of block [(ci, cj)] stores to the block's
    two chroma cells. *)
Lemma chroma_cells_untouched (ci cj : Z) (p : Z * Z) (d : list Z) :
  0 ≤ ci < w ÷ 2 → 0 ≤ cj < h ÷ 2 →
  p ∈ Convert.positions w h → p ≠ (2 * cj, 2 * ci) →
  Convert.loop_body src w h p d !! Z.to_nat (w * h + (cj * (w ÷ 2) + ci))
  = d !! Z.to_nat (w * h + (cj * (w ÷ 2) + ci)) ∧
  Convert.loop_body src w h p d
    !! Z.to_nat (w * h + (w ÷ 2) * (h ÷ 2) + (cj * (w ÷ 2) + ci))
  = d !! Z.to_nat (w * h + (w ÷ 2) * (h ÷ 2) + (cj * (w ÷ 2) + ci)).
Proof.
  intros Hci Hcj Hp Hne. destruct p as [j' i'].
  apply elem_of_positions in Hp as [Hj' Hi'].
  pose proof (row_major_bound (w ÷ 2) (h ÷ 2) cj ci Hci Hcj) as Hc.
  pose proof (row_major_bound w h j' i' Hi' Hj').
  pose proof (chroma_index_bound w h j' i' Hw2 Hh2 Hi' Hj').
  split; apply loop_body_frame; intros [E|[Hpar [E|E]]]; try lia;
    apply Hne, chroma_cell_owner; (done || lia).
Qed.

(** The chroma-blue byte of block [(ci, cj)] follows the luma plane. *)
Lemma convert_cb_at (dst : list Z) (ci cj : Z) :
  (Z.to_nat (w * h + (w ÷ 2) * (h ÷ 2)) ≤ length dst)%nat →
  0 ≤ ci < w ÷ 2 → 0 ≤ cj < h ÷ 2 →
  Convert.bgra_to_yuv420p src dst w h !! Z.to_nat (w * h + (cj * (w ÷ 2) + ci))
  = Some (Convert.pixel_u src w (2 * ci) (2 * cj)).
Proof.
  intros Hlen Hci Hcj. rewrite convert_as_run.
  pose proof (row_major_bound (w ÷ 2) (h ÷ 2) cj ci Hci Hcj) as Hc.
  assert (0 ≤ w * h) by (apply Z.mul_nonneg_nonneg; lia).
  apply (run_stored (Convert.loop_body src w h) (Convert.touches w h) loop_body_length
           loop_body_frame _ _ _ (2 * cj, 2 * ci)).
  - apply elem_of_positions. rewrite !quot_2_div in Hci, Hcj by lia.
    div_lia.
  - intros [j' i'] Hq Hne. apply elem_of_positions in Hq as [Hj' Hi'].
    pose proof (row_major_bound w h j' i' Hi' Hj').
    pose proof (chroma_index_bound w h j' i' Hw2 Hh2 Hi' Hj').
    intros [E|[Hpar [E|E]]]; [lia| |lia].
    apply Hne, chroma_cell_owner; [done..|lia].
  - intros d' Hd'. rewrite block_stores by lia.
    rewrite store_lookup_ne by lia. apply store_lookup_eq.
    rewrite store_length. lia.
Qed.

(** The chroma-red byte of block [(ci, cj)] follows the chroma-blue plane. *)
Lemma convert_cr_at (dst : list Z) (ci cj : Z) :
  (Z.to_nat (w * h + 2 * ((w ÷ 2) * (h ÷ 2))) ≤ length dst)%nat →
  0 ≤ ci < w ÷ 2 → 0 ≤ cj < h ÷ 2 →
  Convert.bgra_to_yuv420p src dst w h
    !! Z.to_nat (w * h + (w ÷ 2) * (h ÷ 2) + (cj * (w ÷ 2) + ci))
  = Some (Convert.pixel_v src w (2 * ci) (2 * cj)).
Proof.
  intros Hlen Hci Hcj. rewrite convert_as_run.
  pose proof (row_major_bound (w ÷ 2) (h ÷ 2) cj ci Hci Hcj) as Hc.
  assert (0 ≤ w * h) by (apply Z.mul_nonneg_nonneg; lia).
  apply (run_stored (Convert.loop_body src w h) (Convert.touches w h) loop_body_length
           loop_body_frame _ _ _ (2 * cj, 2 * ci)).
  - apply elem_of_positions. rewrite !quot_2_div in Hci, Hcj by lia.
    div_lia.
  - intros [j' i'] Hq Hne. apply elem_of_positions in Hq as [Hj' Hi'].
    pose proof (row_major_bound w h j' i' Hi' Hj').
    pose proof (chroma_index_bound w h j' i' Hw2 Hh2 Hi' Hj').
    intros [E|[Hpar [E|E]]]; [lia..|].
    apply Hne, chroma_cell_owner; [done..|lia].
  - intros d' Hd'. rewrite block_stores by lia.
    apply store_lookup_eq. rewrite !store_length. lia.
Qed.

(** Nothing is stored at or beyond offset [w*h + 2*(w/2)*(h/2)]. *)
Lemma convert_beyond (dst : list Z) (n : nat) :
  (Z.to_nat (w * h + 2 * ((w ÷ 2) * (h ÷ 2))) ≤ n)%nat →
  Convert.bgra_to_yuv420p src dst w h !! n = dst !! n.
Proof.
  intros Hn. rewrite convert_as_run.
  apply (run_untouched (Convert.loop_body src w h) (Convert.touches w h) loop_body_frame).
  intros [j' i'] Hq. apply elem_of_positions in Hq as [Hj' Hi'].
  pose proof (row_major_bound w h j' i' Hi' Hj').
  pose proof (chroma_index_bound w h j' i' Hw2 Hh2 Hi' Hj').
  intros [E|[Hpar [E|E]]]; lia.
Qed.

End ConvertStores.

(** The alpha bytes of the source have no part in the result. *)
Lemma convert_ignores_alpha (src src' dst : list Z) (w h : Z) :
  (∀ k, 0 ≤ k → k mod 4 ≠ 3 → load src' k = load src k) →
  Convert.bgra_to_yuv420p src' dst w h = Convert.bgra_to_yuv420p src dst w h.
Proof.
  intros Hsame. rewrite !convert_as_run. apply run_ext.
  intros [j i] d Hp. apply elem_of_positions in Hp as [Hj Hi].
  apply loop_body_alpha; [|done].
  pose proof (row_major_bound w h j i Hi Hj). lia.
Qed.

(** ** convert.c against the reference conversion *)

Lemma clamp_u8_clamp (x : Z) : Convert.clamp_u8 x = ConvertSpec.clamp x 0 255.
Proof.
  unfold Convert.clamp_u8, ConvertSpec.clamp.
  destruct (Z.ltb_spec x 0); [lia|].
  destruct (Z.gtb_spec x 255); lia.
Qed.

Lemma pixel_y_spec (src : list Z) (w i j : Z) :
  Convert.pixel_y src w i j
  = ConvertSpec.Y (ConvertSpec.red src w i j) (ConvertSpec.green src w i j)
      (ConvertSpec.blue src w i j).
Proof.
  unfold Convert.pixel_y, ConvertSpec.Y, ConvertSpec.red, ConvertSpec.green,
    ConvertSpec.blue, Convert.luma.
  rewrite clamp_u8_clamp, Z.add_0_r. by rewrite (Z.mul_comm 4).
Qed.

Lemma pixel_u_spec (src : list Z) (w i j : Z) :
  Convert.pixel_u src w i j
  = ConvertSpec.U (ConvertSpec.red src w i j) (ConvertSpec.green src w i j)
      (ConvertSpec.blue src w i j).
Proof.
  unfold Convert.pixel_u, ConvertSpec.U, ConvertSpec.red, ConvertSpec.green,
    ConvertSpec.blue, Convert.chroma_u.
  rewrite clamp_u8_clamp, Z.add_0_r. by rewrite (Z.mul_comm 4).
Qed.

Lemma pixel_v_spec (src : list Z) (w i j : Z) :
  Convert.pixel_v src w i j
  = ConvertSpec.V (ConvertSpec.red src w i j) (ConvertSpec.green src w i j)
      (ConvertSpec.blue src w i j).
Proof.
  unfold Convert.pixel_v, ConvertSpec.V, ConvertSpec.red, ConvertSpec.green,
    ConvertSpec.blue, Convert.chroma_v.
  rewrite clamp_u8_clamp, Z.add_0_r. by rewrite (Z.mul_comm 4).
Qed.

Lemma plane_rows_length (f : Z → Z → Z) (w h : Z) :
  Forall (λ l : list Z, length l = Z.to_nat w)
    ((λ j, (λ i, f i j) <$> seqZ 0 w) <$> seqZ 0 h).
Proof.
  apply Forall_fmap, Forall_forall. intros j _. simpl.
  by rewrite length_fmap, length_seqZ.
Qed.

Lemma plane_length (f : Z → Z → Z) (w h : Z) :
  length (ConvertSpec.plane f w h) = (Z.to_nat h * Z.to_nat w)%nat.
Proof.
  unfold ConvertSpec.plane. rewrite length_join.
  rewrite (sum_list_fmap_same (Z.to_nat w)) by apply plane_rows_length.
  by rewrite length_fmap, length_seqZ.
Qed.

(** Every sample of a plane sits at its row-major offset. *)
Lemma plane_lookup (f : Z → Z → Z) (w h : Z) (n : nat) (y : Z) :
  ConvertSpec.plane f w h !! n = Some y →
  ∃ i j, 0 ≤ i < w ∧ 0 ≤ j < h ∧ n = Z.to_nat (j * w + i) ∧ y = f i j.
Proof.
  unfold ConvertSpec.plane. intros Hn.
  apply (join_lookup_Some_same_length (Z.to_nat w)) in Hn;
    [|apply plane_rows_length].
  destruct Hn as (j0 & l & i0 & Hrow & Hl & ->).
  rewrite list_lookup_fmap in Hrow.
  destruct (seqZ 0 h !! j0) as [j|] eqn:Hj; [|done].
  simpl in Hrow. injection Hrow as <-.
  apply lookup_seqZ in Hj as [-> Hj].
  rewrite list_lookup_fmap in Hl.
  destruct (seqZ 0 w !! i0) as [i|] eqn:Hi; [|done].
  simpl in Hl. injection Hl as <-.
  apply lookup_seqZ in Hi as [-> Hi].
  exists (0 + Z.of_nat i0), (0 + Z.of_nat j0).
  repeat split; lia.
Qed.

Lemma frame_size_even (w h : Z) :
  w mod 2 = 0 → h mod 2 = 0 →
  w * h * 3 / 2 = w * h + 2 * ((w / 2) * (h / 2)).
Proof.
  intros Hw2 Hh2.
  assert (w = 2 * (w / 2)) as Hwe by div_lia.
  assert (h = 2 * (h / 2)) as Hhe by div_lia.
  set (a := w / 2) in *. set (b := h / 2) in *.
  rewrite Hwe, Hhe. replace (2 * a * (2 * b) * 3) with (a * b * 6 * 2) by ring.
  rewrite Z.div_mul by done. ring.
Qed.

(** In-place conversion into a buffer of at least one frame: the frame
    is the reference conversion, the bytes behind it stay. *)
Lemma convert_in_place (src dst : list Z) (w h : Z) :
  0 ≤ w → 0 ≤ h → w mod 2 = 0 → h mod 2 = 0 →
  (Z.to_nat (w * h * 3 / 2) ≤ length dst)%nat →
  Convert.bgra_to_yuv420p src dst w h
  = ConvertSpec.convert src w h ++ drop (Z.to_nat (w * h * 3 / 2)) dst.
Proof.
  intros Hw Hh Hw2 Hh2 Hlen.
  assert (w ÷ 2 = w / 2) as Ew by (by apply quot_2_div).
  assert (h ÷ 2 = h / 2) as Eh by (by apply quot_2_div).
  assert (0 ≤ w / 2 ∧ 0 ≤ h / 2) as [Hhw Hhh] by div_lia.
  assert (0 ≤ w * h) by (apply Z.mul_nonneg_nonneg; lia).
  assert (0 ≤ (w / 2) * (h / 2)) by (apply Z.mul_nonneg_nonneg; lia).
  pose proof (frame_size_even w h Hw2 Hh2) as Efs.
  assert (length (ConvertSpec.luma_plane src w h) = Z.to_nat (w * h)) as LY.
  { unfold ConvertSpec.luma_plane. rewrite plane_length. lia. }
  assert (length (ConvertSpec.cb_plane src w h) = Z.to_nat ((w / 2) * (h / 2))) as LU.
  { unfold ConvertSpec.cb_plane. rewrite plane_length. lia. }
  assert (length (ConvertSpec.cr_plane src w h) = Z.to_nat ((w / 2) * (h / 2))) as LV.
  { unfold ConvertSpec.cr_plane. rewrite plane_length. lia. }
  apply (list_eq_same_length _ _ (length dst)).
  - unfold ConvertSpec.convert.
    rewrite !length_app, length_drop, LY, LU, LV. lia.
  - apply convert_length.
  - intros n x y Hn Hx Hy. unfold ConvertSpec.convert in Hy.
    rewrite <- !(assoc_L (++)) in Hy.
    apply lookup_app_Some in Hy as [Hy|[Hn1 Hy]].
    { apply plane_lookup in Hy as (i & j & Hi & Hj & -> & ->).
      rewrite convert_luma_at in Hx by (done || lia).
      rewrite pixel_y_spec in Hx. congruence. }
    apply lookup_app_Some in Hy as [Hy|[Hn2 Hy]].
    { apply plane_lookup in Hy as (ci & cj & Hci & Hcj & En & ->).
      replace n with (Z.to_nat (w * h + (cj * (w ÷ 2) + ci))) in Hx.
      - rewrite convert_cb_at in Hx by (done || lia).
        rewrite pixel_u_spec in Hx. congruence.
      - pose proof (row_major_bound (w / 2) (h / 2) cj ci Hci Hcj). lia. }
    apply lookup_app_Some in Hy as [Hy|[Hn3 Hy]].
    { apply plane_lookup in Hy as (ci & cj & Hci & Hcj & En & ->).
      replace n with
        (Z.to_nat (w * h + (w ÷ 2) * (h ÷ 2) + (cj * (w ÷ 2) + ci))) in Hx.
      - rewrite convert_cr_at in Hx by (done || lia).
        rewrite pixel_v_spec in Hx. congruence.
      - pose proof (row_major_bound (w / 2) (h / 2) cj ci Hci Hcj). lia. }
    rewrite lookup_drop in Hy.
    rewrite convert_beyond in Hx by (done || lia).
    replace (Z.to_nat (w * h * 3 / 2) +
             (n - length (ConvertSpec.luma_plane src w h)
                - length (ConvertSpec.cb_plane src w h)
                - length (ConvertSpec.cr_plane src w h)))%nat with n in Hy by lia.
    congruence.
Qed.

(** BT.601 studio range: the luma of an 8-bit pixel lies in 16..235,
    so [clamp_u8] never changes it. *)
Lemma luma_studio_range (r g b : Z) :
  0 ≤ r ≤ 255 → 0 ≤ g ≤ 255 → 0 ≤ b ≤ 255 →
  16 ≤ Convert.luma r g b ≤ 235.
Proof.
  intros Hr Hg Hb. unfold Convert.luma. rewrite Z.shiftr_div_pow2 by lia.
  change (2 ^ 8) with 256. div_lia.
Qed.

(** C2 (as the code has it): a white pixel (255,255,255) converts to
    Y=235, U=128, V=128 and a black pixel (0,0,0) to Y=16, U=128,
    V=128, both as single samples and through [bgra_to_yuv420p] on a
    2x2 frame (four luma bytes, then one Cb and one Cr byte). *)
Theorem white_and_black_pixels :
  Convert.clamp_u8 (Convert.luma 255 255 255) = 235 ∧
  Convert.clamp_u8 (Convert.chroma_u 255 255 255) = 128 ∧
  Convert.clamp_u8 (Convert.chroma_v 255 255 255) = 128 ∧
  Convert.clamp_u8 (Convert.luma 0 0 0) = 16 ∧
  Convert.clamp_u8 (Convert.chroma_u 0 0 0) = 128 ∧
  Convert.clamp_u8 (Convert.chroma_v 0 0 0) = 128 ∧
  Convert.bgra_to_yuv420p (Convert.solid_bgra 4 255 255 255 255)
    (replicate 6 0) 2 2 = [235; 235; 235; 235; 128; 128] ∧
  Convert.bgra_to_yuv420p (Convert.solid_bgra 4 0 0 0 255)
    (replicate 6 0) 2 2 = [16; 16; 16; 16; 128; 128].
Proof. repeat split; reflexivity. Qed.

(** C2 counterexample: the luma byte the code produces for an all-white
    frame is not within rounding of 255 (it is 235, off by 20). *)
Lemma white_luma_is_not_255 :
  ¬ ∃ y : Z,
      Convert.bgra_to_yuv420p (Convert.solid_bgra 4 255 255 255 255)
        (replicate 6 0) 2 2 !! 0%nat = Some y ∧
      Z.abs (y - 255) ≤ 1.
Proof.
  intros (y & Hy & Hnear).
  vm_compute in Hy. injection Hy as <-. lia.
Qed.

(** C3: for even dimensions, [bgra_to_yuv420p] equals the reference
    conversion: every pixel's luma byte is
    clamp(((66R + 129G + 25B + 128) >> 8) + 16, 0, 255) and the alpha
    bytes have no part in the result; chroma is one U and one V sample
    per 2x2 block, computed once, from the block's top-left pixel, with
    the U and V formulas: the loops visit every pixel once, the
    top-left pixel of a block stores luma, U and V, a pixel with an odd
    row or column stores its luma byte only, and no other pixel stores
    to the block's chroma cells. *)
Theorem bgra_to_yuv420p_is_reference (src dst : list Z) (w h : Z) :
  0 ≤ w → 0 ≤ h → w mod 2 = 0 → h mod 2 = 0 →
  length src = Z.to_nat (w * h * 4) →
  length dst = Z.to_nat (w * h * 3 / 2) →
  Convert.bgra_to_yuv420p src dst w h = ConvertSpec.convert src w h ∧
  (∀ src', (∀ k, 0 ≤ k → k mod 4 ≠ 3 → load src' k = load src k) →
     Convert.bgra_to_yuv420p src' dst w h
     = Convert.bgra_to_yuv420p src dst w h) ∧
  Convert.bgra_to_yuv420p src dst w h
  = foldl (λ d p, Convert.loop_body src w h p d) dst (Convert.positions w h) ∧
  NoDup (Convert.positions w h) ∧
  (∀ i j d, 0 ≤ i → 0 ≤ j → j mod 2 ≠ 0 ∨ i mod 2 ≠ 0 →
     Convert.loop_body src w h (j, i) d
     = store d (j * w + i)
         (ConvertSpec.Y (ConvertSpec.red src w i j)
            (ConvertSpec.green src w i j) (ConvertSpec.blue src w i j))) ∧
  (∀ ci cj d, 0 ≤ ci → 0 ≤ cj →
     Convert.loop_body src w h (2 * cj, 2 * ci) d
     = store (store (store d (2 * cj * w + 2 * ci)
                (ConvertSpec.Y (ConvertSpec.red src w (2 * ci) (2 * cj))
                   (ConvertSpec.green src w (2 * ci) (2 * cj))
                   (ConvertSpec.blue src w (2 * ci) (2 * cj))))
          (w * h + (cj * (w ÷ 2) + ci))
          (ConvertSpec.U (ConvertSpec.red src w (2 * ci) (2 * cj))
             (ConvertSpec.green src w (2 * ci) (2 * cj))
             (ConvertSpec.blue src w (2 * ci) (2 * cj))))
        (w * h + (w ÷ 2) * (h ÷ 2) + (cj * (w ÷ 2) + ci))
        (ConvertSpec.V (ConvertSpec.red src w (2 * ci) (2 * cj))
           (ConvertSpec.green src w (2 * ci) (2 * cj))
           (ConvertSpec.blue src w (2 * ci) (2 * cj)))) ∧
  (∀ ci cj p d, 0 ≤ ci < w ÷ 2 → 0 ≤ cj < h ÷ 2 →
     p ∈ Convert.positions w h → p ≠ (2 * cj, 2 * ci) →
     Convert.loop_body src w h p d !! Z.to_nat (w * h + (cj * (w ÷ 2) + ci))
     = d !! Z.to_nat (w * h + (cj * (w ÷ 2) + ci)) ∧
     Convert.loop_body src w h p d
       !! Z.to_nat (w * h + (w ÷ 2) * (h ÷ 2) + (cj * (w ÷ 2) + ci))
     = d !! Z.to_nat (w * h + (w ÷ 2) * (h ÷ 2) + (cj * (w ÷ 2) + ci))).
Proof.
  intros Hw Hh Hw2 Hh2 Hsrc Hdst. split_and!.
  - rewrite convert_in_place by (done || lia).
    rewrite drop_ge by lia. apply app_nil_r.
  - intros src'. apply convert_ignores_alpha.
  - apply convert_as_run.
  - apply positions_NoDup.
  - intros i j d Hi Hj Hodd.
    rewrite pixel_body_odd by done. by rewrite pixel_y_spec.
  - intros ci cj d Hci Hcj.
    rewrite block_stores by done.
    by rewrite pixel_y_spec, pixel_u_spec, pixel_v_spec.
  - intros ci cj p d. by apply chroma_cells_untouched.
Qed.

Lemma bgra_to_yuv420p_is_reference_witness :
  Convert.bgra_to_yuv420p
    [10; 20; 30; 255; 40; 50; 60; 255; 70; 80; 90; 255; 200; 210; 220; 255]
    (replicate 6 0) 2 2
  = ConvertSpec.convert
      [10; 20; 30; 255; 40; 50; 60; 255; 70; 80; 90; 255; 200; 210; 220; 255]
      2 2.
Proof.
  destruct (bgra_to_yuv420p_is_reference
    [10; 20; 30; 255; 40; 50; 60; 255; 70; 80; 90; 255; 200; 210; 220; 255]
    (replicate 6 0) 2 2) as [H _];
    [lia | lia | reflexivity | reflexivity | reflexivity | reflexivity |].
  exact H.
Defined.

(** C4: for even [w] and [h] the output holds the luma plane first,
    row-major in [w * h] bytes, then the chroma-blue plane, then the
    chroma-red plane, each row-major in [(w/2) * (h/2)] bytes; together
    [w*h + 2*(w/2)*(h/2) = w*h*3/2] bytes, and no byte behind them is
    written. *)
Theorem yuv420p_plane_layout (src dst : list Z) (w h : Z) :
  0 ≤ w → 0 ≤ h → w mod 2 = 0 → h mod 2 = 0 →
  length dst = Z.to_nat (w * h * 3 / 2) →
  w * h * 3 / 2 = w * h + 2 * ((w / 2) * (h / 2)) ∧
  length (Convert.bgra_to_yuv420p src dst w h) = Z.to_nat (w * h * 3 / 2) ∧
  (∀ i j, 0 ≤ i < w → 0 ≤ j < h →
     Convert.bgra_to_yuv420p src dst w h !! Z.to_nat (j * w + i)
     = Some (Convert.pixel_y src w i j)) ∧
  (∀ ci cj, 0 ≤ ci < w / 2 → 0 ≤ cj < h / 2 →
     Convert.bgra_to_yuv420p src dst w h
       !! Z.to_nat (w * h + (cj * (w / 2) + ci))
     = Some (Convert.pixel_u src w (2 * ci) (2 * cj))) ∧
  (∀ ci cj, 0 ≤ ci < w / 2 → 0 ≤ cj < h / 2 →
     Convert.bgra_to_yuv420p src dst w h
       !! Z.to_nat (w * h + (w / 2) * (h / 2) + (cj * (w / 2) + ci))
     = Some (Convert.pixel_v src w (2 * ci) (2 * cj))) ∧
  (∀ tail, Convert.bgra_to_yuv420p src (dst ++ tail) w h
           = Convert.bgra_to_yuv420p src dst w h ++ tail).
Proof.
  intros Hw Hh Hw2 Hh2 Hdst.
  pose proof (frame_size_even w h Hw2 Hh2) as Efs.
  assert (0 ≤ w / 2 ∧ 0 ≤ h / 2) as [Hhw Hhh] by div_lia.
  assert (0 ≤ w * h) by (apply Z.mul_nonneg_nonneg; lia).
  assert (0 ≤ (w / 2) * (h / 2)) by (apply Z.mul_nonneg_nonneg; lia).
  split; [done|]. split; [by rewrite convert_length|].
  split; [|split; [|split]].
  - intros i j Hi Hj. apply convert_luma_at; (done || lia).
  - intros ci cj Hci Hcj. rewrite <- !quot_2_div by done.
    apply convert_cb_at; rewrite ?quot_2_div; (done || lia).
  - intros ci cj Hci Hcj. rewrite <- !quot_2_div by done.
    apply convert_cr_at; rewrite ?quot_2_div; (done || lia).
  - intros tail.
    rewrite !convert_in_place by (rewrite ?length_app; done || lia).
    rewrite drop_app_length' by lia. rewrite drop_ge by lia.
    by rewrite app_nil_r.
Qed.

Lemma yuv420p_plane_layout_witness :
  4 * 2 * 3 / 2 = 4 * 2 + 2 * ((4 / 2) * (2 / 2)) ∧
  length (Convert.bgra_to_yuv420p (Convert.solid_bgra 8 9 8 7 255)
            (replicate 12 0) 4 2) = Z.to_nat (4 * 2 * 3 / 2).
Proof.
  pose proof (yuv420p_plane_layout (Convert.solid_bgra 8 9 8 7 255)
    (replicate 12 0) 4 2) as H.
  destruct H as (H1 & H2 & _); [lia | lia | reflexivity | reflexivity | reflexivity |].
  split; [exact H1 | exact H2].
Defined.

(** ** vcam.c, vcam_win.c: frame delivery *)

Lemma frame_size_of_mod (w h : Z) :
  Vcam.frame_size_of w h = ((w * h * 3) mod 2 ^ 64) / 2.
Proof.
  unfold Vcam.frame_size_of, to_size_t, SIZE_WIDTH.
  by rewrite <- Z.mul_mod, Z.mul_mod_idemp_l by lia.
Qed.

(** [int] dimensions never make the frame size wrap. *)
Lemma frame_size_of_exact (w h : Z) :
  - 2 ^ 31 ≤ w < 2 ^ 31 → - 2 ^ 31 ≤ h < 2 ^ 31 → 0 ≤ w * h →
  Vcam.frame_size_of w h = w * h * 3 / 2.
Proof.
  intros Hw Hh Hpos. rewrite frame_size_of_mod.
  assert (w * h ≤ 2 ^ 62) by nia.
  by rewrite Z.mod_small by lia.
Qed.

Lemma vcam_open_frame_size (s : Vcam.sink) (e : Vcam.open_env)
    (device : string) (w h : Z) (ctx : Vcam.vcam_ctx) :
  Vcam.vcam_open s e device w h = Some ctx →
  Vcam.width ctx = w ∧ Vcam.height ctx = h ∧
  Vcam.frame_size ctx = Vcam.frame_size_of w h.
Proof.
  unfold Vcam.vcam_open. intros Hopen.
  repeat (case_match; try done); by injection Hopen as <-.
Qed.

Lemma write_count_bounds (s : Vcam.sink) (remaining : Z) :
  0 ≤ remaining → 0 ≤ Vcam.write_count s remaining ≤ remaining.
Proof.
  intros Hr. destruct s; simpl; [lia|].
  unfold to_uint. split; [apply Z.mod_pos_bound; lia|].
  apply Z.mod_le; lia.
Qed.

(** The loop only ever extends the output by the next bytes of the
    frame, and returns 0 exactly when the whole frame is out. *)
Lemma write_loop_prefix (s : Vcam.sink) (fsize : Z) (buf : list Z)
    (tr : list Vcam.write_outcome) :
  ∀ (written : Z) (out0 : list Z),
    0 ≤ written ≤ fsize →
    ∃ k, written ≤ k ≤ fsize ∧
      Vcam.output (Vcam.write_loop s fsize buf written tr
                     (out0 ++ take (Z.to_nat written) buf))
      = out0 ++ take (Z.to_nat k) buf ∧
      (Vcam.ret (Vcam.write_loop s fsize buf written tr
                   (out0 ++ take (Z.to_nat written) buf)) = Some 0 → k = fsize) ∧
      (∀ r, Vcam.ret (Vcam.write_loop s fsize buf written tr
                   (out0 ++ take (Z.to_nat written) buf)) = Some r →
            r = 0 ∨ r = -1).
Proof.
  induction tr as [|o tr IH]; intros written out0 Hw; simpl.
  - destruct (Z.ltb_spec written fsize); simpl.
    + exists written. repeat split; (lia || done).
    + exists written. repeat split; try (lia || done).
      intros r [= <-]. by left.
  - destruct (Z.ltb_spec written fsize); simpl.
    2:{ exists written. repeat split; try (lia || done).
        intros r [= <-]. by left. }
    destruct o as [a|e]; simpl.
    + pose proof (write_count_bounds s (fsize - written)) as Hc.
      set (n := Z.min (Z.max 0 a) (Vcam.write_count s (fsize - written))) in *.
      assert (0 ≤ n ≤ fsize - written) as Hn by lia.
      destruct (Z.ltb_spec n 0); [lia|].
      rewrite <- (assoc_L (++)), take_take_drop.
      replace (Z.to_nat written + Z.to_nat n)%nat
        with (Z.to_nat (written + n)) by lia.
      destruct (IH (written + n) out0) as (k & Hk & Hrest); [lia|].
      exists k. split; [lia|done].
    + destruct (Z.eqb_spec e Vcam.EINTR).
      * destruct (IH written out0) as (k & Hk & Hrest); [lia|].
        exists k. split; [lia|done].
      * simpl. exists written. repeat split; try (lia || done).
        intros r [= <-]. by right.
Qed.

(** Partial writes and EINTR are retried until the frame is out. *)
Lemma write_loop_completes (s : Vcam.sink) (fsize : Z) (buf : list Z)
    (tr : list Vcam.write_outcome) :
  fsize < 2 ^ 32 →
  Forall (λ o, Vcam.retried o = true) tr →
  ∀ (written : Z) (out : list Z),
    0 ≤ written →
    fsize - written ≤ Vcam.accepting_calls tr →
    Vcam.ret (Vcam.write_loop s fsize buf written tr out) = Some 0.
Proof.
  intros Hfit Hall. induction Hall as [|o tr Ho Hall IH];
    intros written out Hw Hcalls; simpl.
  - simpl in Hcalls. destruct (Z.ltb_spec written fsize); [lia|done].
  - destruct (Z.ltb_spec written fsize); [|done].
    destruct o as [a|e]; simpl in *.
    + apply Z.ltb_lt in Ho.
      assert (1 ≤ Vcam.write_count s (fsize - written)) as Hc.
      { destruct s; simpl; [lia|]. unfold to_uint.
        rewrite Z.mod_small; lia. }
      destruct (Z.ltb_spec (Z.min (Z.max 0 a)
                  (Vcam.write_count s (fsize - written))) 0); [lia|].
      apply IH; lia.
    + rewrite Ho. apply IH; lia.
Qed.

(** A write error other than EINTR ends the call with -1, wherever in
    the frame it strikes. *)
Lemma write_loop_error (s : Vcam.sink) (fsize : Z) (buf : list Z)
    (e : Z) (post : list Vcam.write_outcome)
    (tr : list Vcam.write_outcome) :
  e ≠ Vcam.EINTR →
  ∀ (written : Z) (out : list Z),
    Vcam.ret (Vcam.write_loop s fsize buf written tr out) = None →
    Vcam.ret (Vcam.write_loop s fsize buf written
                (tr ++ Vcam.Fails e :: post) out) = Some (-1).
Proof.
  intros He. induction tr as [|o tr IH]; intros written out; simpl.
  - destruct (Z.ltb_spec written fsize); simpl; [|done].
    intros _. by destruct (Z.eqb_spec e Vcam.EINTR).
  - destruct (Z.ltb_spec written fsize); simpl; [|done].
    destruct (Vcam.sys_write out (drop (Z.to_nat written) buf)
                (Vcam.write_count s (fsize - written)) o) as [[n errno] out'].
    destruct (n <? 0); [|apply IH].
    destruct (errno =? Vcam.EINTR); [apply IH|done].
Qed.

(** C5: on a sink opened for [w] by [h] ([int] values), [vcam_write]
    with a buffer length below [w * h * 3 / 2] returns -1 without
    calling write: the bytes at the destination and the outcomes still
    to come are as before the call. *)
Theorem vcam_write_rejects_short_frame (s : Vcam.sink) (e : Vcam.open_env)
    (device : string) (w h : Z) (ctx : Vcam.vcam_ctx) (buf : list Z)
    (len : Z) (tr : list Vcam.write_outcome) (out : list Z) :
  - 2 ^ 31 ≤ w < 2 ^ 31 → - 2 ^ 31 ≤ h < 2 ^ 31 →
  Vcam.vcam_open s e device w h = Some ctx →
  0 ≤ len < w * h * 3 / 2 →
  Vcam.vcam_write s ctx buf len tr out
  = {| Vcam.ret := Some (-1); Vcam.output := out; Vcam.pending := tr |}.
Proof.
  intros Hw Hh Hopen Hlen.
  apply vcam_open_frame_size in Hopen as (_ & _ & Hfs).
  rewrite frame_size_of_exact in Hfs; [|done..|].
  - unfold Vcam.vcam_write. rewrite Hfs.
    by destruct (Z.ltb_spec len (w * h * 3 / 2)); [|lia].
  - destruct (Z.le_gt_cases 0 (w * h)) as [|Hneg]; [done|].
    assert (w * h * 3 / 2 < 0) by div_lia. lia.
Qed.

Lemma vcam_write_rejects_short_frame_witness :
  Vcam.vcam_write Vcam.V4L2
    {| Vcam.fd := 3; Vcam.is_stdout := false; Vcam.width := 4;
       Vcam.height := 2; Vcam.frame_size := Vcam.frame_size_of 4 2 |}
    (replicate 11 0) 11 [Vcam.Accepts 100] [7]
  = {| Vcam.ret := Some (-1); Vcam.output := [7];
       Vcam.pending := [Vcam.Accepts 100] |}.
Proof.
  apply (vcam_write_rejects_short_frame Vcam.V4L2
           {| Vcam.calloc_ok := true; Vcam.open_fd := 3; Vcam.config_ret := 0 |}
           "/dev/video10" 4 2);
    [lia | lia | reflexivity | split; [lia | reflexivity]].
Defined.

(** The loop of [vcam_write] on any context whose frame size does not
    exceed the buffer. *)
Lemma vcam_write_frame (s : Vcam.sink) (ctx : Vcam.vcam_ctx)
    (buf : list Z) (len : Z) (tr : list Vcam.write_outcome) (out : list Z) :
  0 ≤ Vcam.frame_size ctx ≤ len →
  len ≤ Z.of_nat (length buf) →
  (Vcam.ret (Vcam.vcam_write s ctx buf len tr out) = Some 0 →
     Vcam.output (Vcam.vcam_write s ctx buf len tr out)
     = out ++ take (Z.to_nat (Vcam.frame_size ctx)) buf ∧
     Z.of_nat (length (take (Z.to_nat (Vcam.frame_size ctx)) buf))
     = Vcam.frame_size ctx) ∧
  (∀ r, Vcam.ret (Vcam.vcam_write s ctx buf len tr out) = Some r →
     r = 0 ∨ r = -1) ∧
  (Vcam.frame_size ctx < 2 ^ 32 →
   Forall (λ o, Vcam.retried o = true) tr →
   Vcam.frame_size ctx ≤ Vcam.accepting_calls tr →
     Vcam.ret (Vcam.vcam_write s ctx buf len tr out) = Some 0) ∧
  (∀ e post, e ≠ Vcam.EINTR →
     Vcam.ret (Vcam.vcam_write s ctx buf len tr out) = None →
     Vcam.ret (Vcam.vcam_write s ctx buf len (tr ++ Vcam.Fails e :: post) out)
     = Some (-1)).
Proof.
  intros Hfs Hlen. unfold Vcam.vcam_write.
  destruct (Z.ltb_spec len (Vcam.frame_size ctx)); [lia|].
  destruct (write_loop_prefix s (Vcam.frame_size ctx) buf tr 0 out)
    as (k & Hk & Hout & Hok & Hret); [lia|].
  simpl in Hout, Hok, Hret. rewrite app_nil_r in Hout, Hok, Hret.
  split; [|split; [done|split]].
  - intros Hret0. split.
    + rewrite Hout. by rewrite (Hok Hret0).
    + rewrite length_take_le; lia.
  - intros Hfit Hall Hcalls. apply write_loop_completes; (done || lia).
  - intros e post He Hblocked. by apply write_loop_error.
Qed.

(** C6: on a sink opened for [w] by [h] ([int] values), a [vcam_write]
    that returns 0 has appended exactly the first [w * h * 3 / 2] bytes
    of the buffer to the destination, also when [len] is larger; it
    returns 0 or -1 only; calls that take only part of the request or
    fail with EINTR are retried until the frame is out; a write error
    other than EINTR makes it return -1. *)
Theorem vcam_write_one_frame (s : Vcam.sink) (e : Vcam.open_env)
    (device : string) (w h : Z) (ctx : Vcam.vcam_ctx) (buf : list Z)
    (len : Z) (tr : list Vcam.write_outcome) (out : list Z) :
  - 2 ^ 31 ≤ w < 2 ^ 31 → - 2 ^ 31 ≤ h < 2 ^ 31 → 0 ≤ w * h →
  Vcam.vcam_open s e device w h = Some ctx →
  w * h * 3 / 2 ≤ len →
  len ≤ Z.of_nat (length buf) →
  (Vcam.ret (Vcam.vcam_write s ctx buf len tr out) = Some 0 →
     Vcam.output (Vcam.vcam_write s ctx buf len tr out)
     = out ++ take (Z.to_nat (w * h * 3 / 2)) buf ∧
     Z.of_nat (length (take (Z.to_nat (w * h * 3 / 2)) buf))
     = w * h * 3 / 2) ∧
  (∀ r, Vcam.ret (Vcam.vcam_write s ctx buf len tr out) = Some r →
     r = 0 ∨ r = -1) ∧
  (w * h * 3 / 2 < 2 ^ 32 →
   Forall (λ o, Vcam.retried o = true) tr →
   w * h * 3 / 2 ≤ Vcam.accepting_calls tr →
     Vcam.ret (Vcam.vcam_write s ctx buf len tr out) = Some 0) ∧
  (∀ e' post, e' ≠ Vcam.EINTR →
     Vcam.ret (Vcam.vcam_write s ctx buf len tr out) = None →
     Vcam.ret (Vcam.vcam_write s ctx buf len (tr ++ Vcam.Fails e' :: post) out)
     = Some (-1)).
Proof.
  intros Hw Hh Hpos Hopen Hfs Hlen.
  apply vcam_open_frame_size in Hopen as (_ & _ & Hsize).
  rewrite frame_size_of_exact in Hsize by done.
  rewrite <- Hsize. apply vcam_write_frame; [|done].
  split; [|lia]. rewrite Hsize. apply Z.div_pos; lia.
Qed.

Lemma vcam_write_one_frame_witness :
  Vcam.output
    (Vcam.vcam_write Vcam.WinStream
       {| Vcam.fd := 1; Vcam.is_stdout := true; Vcam.width := 2;
          Vcam.height := 2; Vcam.frame_size := Vcam.frame_size_of 2 2 |}
       [1; 2; 3; 4; 5; 6; 7; 8] 8
       [Vcam.Accepts 2; Vcam.Fails Vcam.EINTR; Vcam.Accepts 100] [0])
  = [0] ++ take (Z.to_nat (2 * 2 * 3 / 2)) [1; 2; 3; 4; 5; 6; 7; 8].
Proof.
  destruct (vcam_write_one_frame Vcam.WinStream
       {| Vcam.calloc_ok := true; Vcam.open_fd := 1; Vcam.config_ret := 0 |}
       "-" 2 2
       {| Vcam.fd := 1; Vcam.is_stdout := true; Vcam.width := 2;
          Vcam.height := 2; Vcam.frame_size := Vcam.frame_size_of 2 2 |}
       [1; 2; 3; 4; 5; 6; 7; 8] 8
       [Vcam.Accepts 2; Vcam.Fails Vcam.EINTR; Vcam.Accepts 100] [0])
    as [Hexact _];
    [lia | lia | lia | reflexivity | by vm_compute | simpl; lia |].
  apply Hexact. reflexivity.
Defined.

(** ** main.c: start-up checks and pacing *)

Lemma fps_out_of_range_spec (fps : Z) :
  Main.fps_out_of_range fps = false ↔ 1 ≤ fps ≤ 60.
Proof.
  unfold Main.fps_out_of_range.
  destruct (Z.ltb_spec fps 1), (Z.gtb_spec fps 60); simpl; split; (done || lia).
Qed.

(** A value inside the range of the type is its own conversion. *)
Lemma to_signed_small (bits x : Z) :
  0 < bits → - 2 ^ (bits - 1) ≤ x < 2 ^ (bits - 1) → to_signed bits x = x.
Proof.
  intros Hb Hx. unfold to_signed.
  assert (2 ^ bits = 2 * 2 ^ (bits - 1)) as E.
  { rewrite <- Z.pow_succ_r by lia. f_equal. lia. }
  destruct (Z.le_gt_cases 0 x).
  - rewrite Z.mod_small by lia.
    by destruct (Z.ltb_spec x (2 ^ (bits - 1))); [|lia].
  - replace (x mod 2 ^ bits) with (x + 2 ^ bits).
    + destruct (Z.ltb_spec (x + 2 ^ bits) (2 ^ (bits - 1))); lia.
    + apply Z.mod_unique_pos with (-1); lia.
Qed.

Lemma long_bits_pos (s : Vcam.sink) : 0 < Main.long_bits s.
Proof. by destruct s. Qed.

(** While the time between the two readings is a value of [long],
    [elapsed] is that time. *)
Lemma elapsed_ns_exact (s : Vcam.sink) (t0 t1 : Main.timespec) :
  Main.fits_long s (Main.time_between t0 t1) →
  Main.elapsed_ns s t0 t1 = Main.time_between t0 t1.
Proof. intros Hfit. apply to_signed_small; [apply long_bits_pos|done]. Qed.

Lemma pace_long_fits (s : Vcam.sink) (frame_ns elapsed : Z) :
  Main.fits_long s (frame_ns - elapsed) →
  Main.pace_long s frame_ns elapsed = Main.pace frame_ns elapsed.
Proof.
  intros Hfit. unfold Main.pace_long, Main.pace.
  by rewrite to_signed_small; [|apply long_bits_pos|done].
Qed.

Lemma total_sleep_ns_app (evs1 evs2 : list Main.event) :
  Main.total_sleep_ns (evs1 ++ evs2)
  = Main.total_sleep_ns evs1 + Main.total_sleep_ns evs2.
Proof.
  induction evs1 as [|ev evs1 IH]; simpl; [done|].
  destruct ev; rewrite ?IH; lia.
Qed.

Lemma total_sleep_ns_logs (logs : list log_msg) :
  Main.total_sleep_ns (Main.EvLog <$> logs) = 0.
Proof. induction logs as [|m logs IH]; simpl; done. Qed.

Lemma nanosleep_requests_app (evs1 evs2 : list Main.event) :
  Main.nanosleep_requests (evs1 ++ evs2)
  = Main.nanosleep_requests evs1 ++ Main.nanosleep_requests evs2.
Proof.
  induction evs1 as [|ev evs1 IH]; simpl; [done|].
  destruct ev; by rewrite ?IH.
Qed.

Lemma nanosleep_requests_logs (logs : list log_msg) :
  Main.nanosleep_requests (Main.EvLog <$> logs) = [].
Proof. induction logs as [|m logs IH]; simpl; done. Qed.

(** The sleeps of a turn that delivers a frame are those of its
    pacing step. *)
Lemma delivering_turn_sleeps (s : Vcam.sink) (logs : list log_msg)
    (progress : list log_msg) (frame_ns elapsed : Z) :
  let evs := (Main.EvGrab :: (Main.EvLog <$> logs)
                ++ [Main.EvConvert; Main.EvVcamWrite])
               ++ (Main.EvLog <$> progress)
               ++ Main.pace_long s frame_ns elapsed in
  Main.nanosleep_requests evs
  = Main.nanosleep_requests (Main.pace_long s frame_ns elapsed) ∧
  Main.total_sleep_ns evs
  = Main.total_sleep_ns (Main.pace_long s frame_ns elapsed).
Proof.
  split.
  - rewrite !nanosleep_requests_app. cbn [Main.nanosleep_requests].
    by rewrite nanosleep_requests_app, !nanosleep_requests_logs.
  - rewrite !total_sleep_ns_app. cbn [Main.total_sleep_ns].
    rewrite total_sleep_ns_app, !total_sleep_ns_logs. simpl. lia.
Qed.

Section MainProofs.

Context {B : CaptureBackend}.
Variable sink : Vcam.sink.

(** C7: the frame rate is accepted exactly when it lies in 1..60.
    0 and 61 are out of range, 1 and 60 are in range; with a rate out
    of range [main] returns 1 having done nothing but print the error
    (no capture_init, no vcam_open); with a rate in range it goes on
    to capture_init. *)
Theorem fps_accepted_iff_1_to_60 (env : Main.main_env) (device : string)
    (fps : Z) :
  Main.parse_opts (Main.opts env) Main.default_device Main.default_fps
  = Main.Proceed device fps →
  (Main.fps_out_of_range fps = false ↔ 1 ≤ fps ≤ 60) ∧
  Main.fps_out_of_range 0 = true ∧ Main.fps_out_of_range 61 = true ∧
  Main.fps_out_of_range 1 = false ∧ Main.fps_out_of_range 60 = false ∧
  (¬ (1 ≤ fps ≤ 60) →
     Main.main sink env = (Some 1, [Main.EvLog LogFpsRange])) ∧
  (1 ≤ fps ≤ 60 →
     ∃ code evs, Main.main sink env = (code, Main.EvCaptureInit :: evs)).
Proof.
  intros Hparse. split; [apply fps_out_of_range_spec|].
  do 4 (split; [reflexivity|]).
  unfold Main.main. rewrite Hparse. split.
  - intros Hout. destruct (Main.fps_out_of_range fps) eqn:E; [done|].
    by apply fps_out_of_range_spec in E.
  - intros Hin. apply fps_out_of_range_spec in Hin. rewrite Hin.
    destruct (cap_init (Main.init env)) as [[cap0|] logs]; [|by eauto].
    destruct (Vcam.vcam_open _ _ _ _ _) as [cam|]; [|by eauto].
    destruct (negb (Main.yuv_malloc_ok env)); [by eauto|].
    destruct (Main.main_loop _ _ _ _ _ _ _ _ _) as [[[] st] evs]; by eauto.
Qed.

(** C8 (as amended): a turn of the loop that captures and delivers a
    frame ends with the pacing step, which asks [nanosleep] for
    max(0, frame_ns - elapsed) nanoseconds whenever that difference is
    a value of [long]: never a negative time, one call for
    [frame_ns - elapsed] when [elapsed < frame_ns] and no call when
    [elapsed] has reached [frame_ns]; [elapsed] is the time between the
    two clock readings whenever that is a value of [long].  A turn
    whose capture fails makes no pacing step: it sleeps the fixed
    100 ms of the retry and goes on; a turn whose write fails leaves the
    loop without sleeping. *)
Theorem pacing_sleep_is_remaining_time (cam : Vcam.vcam_ctx)
    (w h yuv_size fps frame_ns : Z) (st : Main.loop_state)
    (e : Main.iter_env) :
  let elapsed := Main.elapsed_ns sink (Main.t0 e) (Main.t1 e) in
  let '(bgra, cap', logs) := cap_grab (Main.cap st) (Main.grab e) in
  ∃ f st' evs,
    Main.iteration sink cam w h yuv_size fps frame_ns st e = (f, st', evs) ∧
    0 ≤ Main.total_sleep_ns evs ∧
    match bgra with
    | None =>
        f = Main.Continue ∧ Main.frames st' = Main.frames st ∧
        Main.nanosleep_requests evs = [] ∧
        Main.total_sleep_ns evs = 100000000
    | Some px =>
        match Vcam.ret (Vcam.vcam_write sink cam
                          (Convert.bgra_to_yuv420p px (Main.yuv_buf st) w h)
                          yuv_size (Main.writes e) (Main.out st)) with
        | None => f = Main.Blocked ∧ Main.total_sleep_ns evs = 0
        | Some r =>
            if r <? 0 then f = Main.Break ∧ Main.total_sleep_ns evs = 0
            else
              f = Main.Continue ∧ Main.frames st' = Main.frames st + 1 ∧
              (Main.fits_long sink (Main.time_between (Main.t0 e) (Main.t1 e)) →
                 elapsed = Main.time_between (Main.t0 e) (Main.t1 e)) ∧
              (Main.fits_long sink (frame_ns - elapsed) →
                 Main.total_sleep_ns evs = Z.max 0 (frame_ns - elapsed) ∧
                 (elapsed < frame_ns →
                    Main.nanosleep_requests evs = [frame_ns - elapsed]) ∧
                 (frame_ns ≤ elapsed → Main.nanosleep_requests evs = []))
        end
    end.
Proof.
  intros elapsed. unfold Main.iteration.
  destruct (cap_grab (Main.cap st) (Main.grab e)) as [[[px|] cap'] logs].
  2:{ eexists _, _, _. split; [done|].
      cbn [Main.total_sleep_ns Main.nanosleep_requests].
      rewrite total_sleep_ns_app, nanosleep_requests_app.
      rewrite total_sleep_ns_logs, nanosleep_requests_logs. simpl.
      repeat split; (done || lia). }
  destruct (Vcam.ret _) as [r|].
  2:{ eexists _, _, _. split; [done|].
      cbn [Main.total_sleep_ns].
      rewrite total_sleep_ns_app, total_sleep_ns_logs. simpl.
      repeat split; (done || lia). }
  destruct (r <? 0).
  { eexists _, _, _. split; [done|].
    cbn [Main.total_sleep_ns].
    rewrite total_sleep_ns_app, total_sleep_ns_logs. simpl.
    repeat split; (done || lia). }
  eexists _, _, _. split; [done|].
  fold elapsed.
  set (progress := if _ =? 0 then _ else _).
  assert (∃ msgs, progress = Main.EvLog <$> msgs) as [msgs ->].
  { subst progress. destruct (_ =? 0); [by eexists [_]|by exists []]. }
  destruct (delivering_turn_sleeps sink logs msgs frame_ns elapsed)
    as [Hreq Htotal].
  cbn zeta in Hreq, Htotal. rewrite Hreq, Htotal.
  split.
  { unfold Main.pace_long.
    destruct (Z.gtb_spec (to_signed (Main.long_bits sink) (frame_ns - elapsed)) 0);
      simpl; lia. }
  split; [done|]. split; [done|]. split.
  { apply elapsed_ns_exact. }
  intros Hfit. rewrite pace_long_fits by done. unfold Main.pace.
  destruct (Z.gtb_spec (frame_ns - elapsed) 0); simpl;
    repeat split; (done || lia).
Qed.

End MainProofs.

Lemma fps_accepted_iff_1_to_60_witness :
  Main.main Vcam.V4L2 (Main.x11_start [Main.OptFps 61])
  = (Some 1, [Main.EvLog LogFpsRange]).
Proof.
  eapply (fps_accepted_iff_1_to_60 (B := x11_backend) Vcam.V4L2 _
            Main.default_device 61); [reflexivity | lia].
Defined.

Lemma pacing_sleep_is_remaining_time_witness :
  ∃ st' evs,
    Main.iteration Vcam.V4L2 Main.x11_cam 2 2 6 15 (Main.frame_interval 15)
      Main.x11_state0 Main.x11_white_turn = (Main.Continue, st', evs) ∧
    Main.frames st' = 1 ∧
    Main.total_sleep_ns evs = 60000000 ∧
    Main.nanosleep_requests evs = [60000000].
Proof.
  destruct (pacing_sleep_is_remaining_time (B := x11_backend) Vcam.V4L2
              Main.x11_cam 2 2 6 15 (Main.frame_interval 15)
              Main.x11_state0 Main.x11_white_turn)
    as (f & st' & evs & Hit & _ & Hf & Hframes & _ & Hpace).
  destruct Hpace as (Htotal & Hcall & _); [by vm_compute|].
  exists st', evs. rewrite Hit, Hf, Hframes, Htotal.
  rewrite Hcall by (by vm_compute). by vm_compute.
Defined.

(** C8 (counterexample to the claim as stated): at 15 fps the frame
    interval is 66666666 ns, yet the turn in which XGetImage fails
    sleeps 100000000 ns, which is max(0, 66666666 - elapsed) for no
    elapsed time at all, and in particular not for the 6666666 ns
    between the clock readings of that turn. *)
Lemma capture_failure_sleeps_fixed_delay :
  ∃ st' evs,
    Main.iteration Vcam.V4L2 Main.x11_cam 2 2 6 15 (Main.frame_interval 15)
      Main.x11_state0 Main.x11_failed_turn = (Main.Continue, st', evs) ∧
    Main.total_sleep_ns evs = 100000000 ∧
    Main.total_sleep_ns evs
    ≠ Z.max 0 (Main.frame_interval 15
               - Main.elapsed_ns Vcam.V4L2 (Main.t0 Main.x11_failed_turn)
                   (Main.t1 Main.x11_failed_turn)) ∧
    ∀ elapsed, 0 ≤ elapsed →
      Main.total_sleep_ns evs ≠ Z.max 0 (Main.frame_interval 15 - elapsed).
Proof.
  eexists _, _. split; [reflexivity|]. split; [reflexivity|]. split.
  - by vm_compute.
  - intros elapsed Hel. change (Main.frame_interval 15) with 66666666.
    change (Main.total_sleep_ns _) with 100000000. lia.
Qed.

(** On the Windows build a turn of three seconds makes [elapsed] wrap
    to a negative value, and the pacing step sleeps. *)
Example long_elapsed_wraps_on_windows :
  Main.elapsed_ns Vcam.WinStream {| Main.tv_sec := 0; Main.tv_nsec := 0 |}
    {| Main.tv_sec := 3; Main.tv_nsec := 0 |} = -1294967296 ∧
  Main.pace_long Vcam.WinStream (Main.frame_interval 15) (-1294967296)
  = [Main.EvNanosleep 1361633962] ∧
  Main.elapsed_ns Vcam.V4L2 {| Main.tv_sec := 0; Main.tv_nsec := 0 |}
    {| Main.tv_sec := 3; Main.tv_nsec := 0 |} = 3000000000.
Proof. by vm_compute. Qed.

(** ** capture_win.c: the outcomes of a grab *)

Lemma capture_grab_timeout (ctx : CaptureWin.capture_ctx) (e : CaptureWin.grab_env) :
  CaptureWin.hr_AcquireNextFrame e = CaptureWin.DXGI_ERROR_WAIT_TIMEOUT →
  CaptureWin.capture_grab ctx e = (Some (CaptureWin.buffer ctx), ctx, []).
Proof. intros Hhr. unfold CaptureWin.capture_grab. by rewrite Hhr. Qed.

Lemma capture_grab_returns_buffer (ctx ctx' : CaptureWin.capture_ctx)
    (e : CaptureWin.grab_env) (px : list Z) (logs : list log_msg) :
  CaptureWin.capture_grab ctx e = (Some px, ctx', logs) →
  CaptureWin.buffer ctx' = px.
Proof.
  unfold CaptureWin.capture_grab. intros Hgrab.
  repeat (case_match; try done); by injection Hgrab as <- <- _.
Qed.

Lemma grabs_timeouts (ctx : CaptureWin.capture_ctx) (n : nat) :
  CaptureWin.grabs ctx (replicate n CaptureWin.timeout_env)
  = (ctx, replicate n (Some (CaptureWin.buffer ctx))).
Proof.
  induction n as [|n IH]; [done|].
  cbn [replicate CaptureWin.grabs].
  rewrite capture_grab_timeout by done. by rewrite IH.
Qed.

Lemma capture_init_buffer (e : CaptureWin.init_env)
    (ctx : CaptureWin.capture_ctx) (logs : list log_msg) :
  CaptureWin.capture_init e = (Some ctx, logs) →
  CaptureWin.buffer ctx
  = malloc_block (CaptureWin.heap e) (CaptureWin.buffer_size ctx).
Proof.
  unfold CaptureWin.capture_init. intros Hinit.
  repeat (case_match; try done); by injection Hinit as <- _.
Qed.

(** C9: a grab that times out returns, without error, the buffer with
    the very bytes the grab before it returned, and leaves the capture
    context (the persistent buffer included) as it was. *)
Theorem timeout_returns_previous_frame (ctx ctx1 : CaptureWin.capture_ctx)
    (e e' : CaptureWin.grab_env) (prev : list Z) (logs : list log_msg) :
  CaptureWin.capture_grab ctx e = (Some prev, ctx1, logs) →
  CaptureWin.hr_AcquireNextFrame e' = CaptureWin.DXGI_ERROR_WAIT_TIMEOUT →
  CaptureWin.capture_grab ctx1 e' = (Some prev, ctx1, []).
Proof.
  intros Hprev Htimeout.
  apply capture_grab_returns_buffer in Hprev as <-.
  by apply capture_grab_timeout.
Qed.

Lemma timeout_returns_previous_frame_witness :
  CaptureWin.capture_grab
    {| CaptureWin.width := 1; CaptureWin.height := 1;
       CaptureWin.buffer := [1; 2; 3; 4]; CaptureWin.buffer_size := 4 |}
    CaptureWin.timeout_env
  = (Some [1; 2; 3; 4],
     {| CaptureWin.width := 1; CaptureWin.height := 1;
        CaptureWin.buffer := [1; 2; 3; 4]; CaptureWin.buffer_size := 4 |}, []).
Proof.
  apply (timeout_returns_previous_frame
           {| CaptureWin.width := 1; CaptureWin.height := 1;
              CaptureWin.buffer := [9; 9; 9; 9]; CaptureWin.buffer_size := 4 |}
           _ (CaptureWin.frame_env [1; 2; 3; 4] 4) CaptureWin.timeout_env
           [1; 2; 3; 4] []); reflexivity.
Defined.

(** C10: capture_init leaves the persistent buffer as malloc returned
    it, so while every grab times out the frame returned holds
    whatever bytes the allocator's memory held, zero or not; once a
    frame has been copied in, timeouts return that frame. *)
Theorem buffer_uninitialized_until_first_frame (e : CaptureWin.init_env)
    (ctx : CaptureWin.capture_ctx) (logs : list log_msg) (n : nat) :
  CaptureWin.capture_init e = (Some ctx, logs) →
  CaptureWin.buffer ctx
  = CaptureWin.heap e <$> seqZ 0 (CaptureWin.buffer_size ctx) ∧
  CaptureWin.grabs ctx (replicate n CaptureWin.timeout_env)
  = (ctx, replicate n
            (Some (CaptureWin.heap e <$> seqZ 0 (CaptureWin.buffer_size ctx)))) ∧
  (∀ e1 px ctx1 logs1,
     CaptureWin.capture_grab ctx e1 = (Some px, ctx1, logs1) →
     CaptureWin.hr_AcquireNextFrame e1 ≠ CaptureWin.DXGI_ERROR_WAIT_TIMEOUT →
     px = CaptureWin.copy_rows ctx e1 ∧
     CaptureWin.grabs ctx1 (replicate n CaptureWin.timeout_env)
     = (ctx1, replicate n (Some (CaptureWin.copy_rows ctx e1)))).
Proof.
  intros Hinit. pose proof (capture_init_buffer e ctx logs Hinit) as Hbuf.
  unfold malloc_block in Hbuf. split; [done|]. split.
  - rewrite grabs_timeouts. by rewrite Hbuf.
  - intros e1 px ctx1 logs1 Hgrab Hnt.
    pose proof (capture_grab_returns_buffer _ _ _ _ _ Hgrab) as Hb1.
    assert (px = CaptureWin.copy_rows ctx e1) as ->.
    { unfold CaptureWin.capture_grab in Hgrab.
      destruct (Z.eqb_spec (CaptureWin.hr_AcquireNextFrame e1)
                  CaptureWin.DXGI_ERROR_WAIT_TIMEOUT); [done|].
      repeat (case_match; try done). by injection Hgrab as <- _. }
    split; [done|]. rewrite grabs_timeouts. by rewrite Hb1.
Qed.

Lemma buffer_uninitialized_until_first_frame_witness :
  CaptureWin.grabs
    {| CaptureWin.width := 2; CaptureWin.height := 1;
       CaptureWin.buffer := replicate 8 205; CaptureWin.buffer_size := 8 |}
    (replicate 3 CaptureWin.timeout_env)
  = ({| CaptureWin.width := 2; CaptureWin.height := 1;
        CaptureWin.buffer := replicate 8 205; CaptureWin.buffer_size := 8 |},
     replicate 3 (Some (replicate 8 205))).
Proof.
  destruct (buffer_uninitialized_until_first_frame
              (CaptureWin.init_ok_env 2 1 (λ _, 205))
              {| CaptureWin.width := 2; CaptureWin.height := 1;
                 CaptureWin.buffer := replicate 8 205;
                 CaptureWin.buffer_size := 8 |}
              [LogCaptureOpened] 3) as (_ & Hgrabs & _); [reflexivity|].
  exact Hgrabs.
Defined.

(** ** main.c on capture failures *)

(** A run of the whole pipeline, start to exit. *)
Example one_frame_run :
  Main.main Vcam.V4L2 Main.x11_one_frame_run
  = (Some 0,
     [Main.EvCaptureInit; Main.EvLog LogCaptureOpened; Main.EvVcamOpen;
      Main.EvLog LogStreaming; Main.EvGrab; Main.EvConvert; Main.EvVcamWrite;
      Main.EvNanosleep 60000000; Main.EvLog (LogStopping 1);
      Main.EvVcamClose; Main.EvCaptureFree]).
Proof. reflexivity. Qed.

(** A failed delivery ends the loop. *)
Lemma write_failure_breaks {B : CaptureBackend} (sink : Vcam.sink)
    (cam : Vcam.vcam_ctx) (w h yuv_size fps frame_ns : Z)
    (st : Main.loop_state) (e : Main.iter_env) (px : list Z)
    (cap' : cap_ctx) (logs : list log_msg) (envs : list Main.iter_env) :
  Main.running e = true →
  cap_grab (Main.cap st) (Main.grab e) = (Some px, cap', logs) →
  Vcam.ret (Vcam.vcam_write sink cam
              (Convert.bgra_to_yuv420p px (Main.yuv_buf st) w h) yuv_size
              (Main.writes e) (Main.out st)) = Some (-1) →
  (Main.main_loop sink cam w h yuv_size fps frame_ns st (e :: envs)).1.1
  = Main.Stopped.
Proof.
  intros Hrun Hgrab Hret. simpl. rewrite Hrun.
  unfold Main.iteration. rewrite Hgrab. simpl. by rewrite Hret.
Qed.

Lemma access_lost_iteration (sink : Vcam.sink) (cam : Vcam.vcam_ctx)
    (w h yuv_size fps frame_ns : Z) (st : @Main.loop_state dxgi_backend)
    (t : Main.timespec) :
  Main.iteration sink cam w h yuv_size fps frame_ns st (Main.access_lost_turn t)
  = (Main.Continue, st, Main.access_lost_events).
Proof. by destruct st. Qed.

(** Whatever the backend, a NULL from capture_grab is answered by the
    log line, a sleep of 100 ms and the next turn of the loop. *)
Lemma capture_failure_continues {B : CaptureBackend} (sink : Vcam.sink)
    (cam : Vcam.vcam_ctx) (w h yuv_size fps frame_ns : Z)
    (st : Main.loop_state) (e : Main.iter_env) (cap' : cap_ctx)
    (logs : list log_msg) :
  cap_grab (Main.cap st) (Main.grab e) = (None, cap', logs) →
  Main.iteration sink cam w h yuv_size fps frame_ns st e
  = (Main.Continue,
     {| Main.cap := cap'; Main.out := Main.out st;
        Main.yuv_buf := Main.yuv_buf st; Main.frames := Main.frames st |},
     Main.EvGrab :: (Main.EvLog <$> logs)
       ++ [Main.EvLog LogCaptureRetry; Main.EvUsleep 100000]).
Proof. intros Hgrab. unfold Main.iteration. by rewrite Hgrab. Qed.

(** C1 (what the code does): when AcquireNextFrame reports that access
    was lost, capture_grab returns NULL as for any other failure, and
    the loop logs, sleeps 100 ms and grabs again on the same session:
    after any number of such turns it is still running, with the
    session and the frame count untouched. *)
Theorem access_lost_is_retried (sink : Vcam.sink) (cam : Vcam.vcam_ctx)
    (w h yuv_size fps frame_ns : Z) (st : @Main.loop_state dxgi_backend)
    (t : Main.timespec) (n : nat) :
  CaptureWin.capture_grab (Main.cap st) CaptureWin.access_lost_env
  = (None, Main.cap st, [LogAccessLost]) ∧
  Main.main_loop sink cam w h yuv_size fps frame_ns st
    (replicate n (Main.access_lost_turn t))
  = (Main.Running, st, mjoin (replicate n Main.access_lost_events)).
Proof.
  split; [reflexivity|].
  induction n as [|n IH]; [done|].
  cbn [replicate Main.main_loop Main.running Main.access_lost_turn mjoin list_join].
  by rewrite access_lost_iteration, IH.
Qed.

(** * Further properties of the sources *)

(** ** convert.c: value ranges and buffer reuse *)

Lemma chroma_u_studio_range (r g b : Z) :
  0 ≤ r ≤ 255 → 0 ≤ g ≤ 255 → 0 ≤ b ≤ 255 →
  16 ≤ Convert.chroma_u r g b ≤ 240.
Proof.
  intros Hr Hg Hb. unfold Convert.chroma_u. rewrite Z.shiftr_div_pow2 by lia.
  change (2 ^ 8) with 256. div_lia.
Qed.

Lemma chroma_v_studio_range (r g b : Z) :
  0 ≤ r ≤ 255 → 0 ≤ g ≤ 255 → 0 ≤ b ≤ 255 →
  16 ≤ Convert.chroma_v r g b ≤ 240.
Proof.
  intros Hr Hg Hb. unfold Convert.chroma_v. rewrite Z.shiftr_div_pow2 by lia.
  change (2 ^ 8) with 256. div_lia.
Qed.

Lemma clamp_u8_id (x : Z) : 0 ≤ x ≤ 255 → Convert.clamp_u8 x = x.
Proof.
  intros Hx. unfold Convert.clamp_u8.
  destruct (Z.ltb_spec x 0); [lia|]. by destruct (Z.gtb_spec x 255); [lia|].
Qed.

Lemma load_byte (p : list Z) (k : Z) :
  Forall (λ b, 0 ≤ b ≤ 255) p → 0 ≤ load p k ≤ 255.
Proof.
  intros Hp. unfold load.
  destruct (p !! Z.to_nat k) as [b|] eqn:E; simpl; [|lia].
  by apply (Forall_lookup_1 _ _ _ _ Hp E).
Qed.

(** A property of every luma sample and one of every chroma sample
    carry over to the two parts of the output frame. *)
Lemma convert_planes_Forall (PY PC : Z → Prop) (src dst : list Z) (w h : Z) :
  0 ≤ w → 0 ≤ h → w mod 2 = 0 → h mod 2 = 0 →
  length dst = Z.to_nat (w * h * 3 / 2) →
  (∀ i j, 0 ≤ i < w → 0 ≤ j < h → PY (Convert.pixel_y src w i j)) →
  (∀ i j, 0 ≤ i < w → 0 ≤ j < h →
     PC (Convert.pixel_u src w i j) ∧ PC (Convert.pixel_v src w i j)) →
  Forall PY (take (Z.to_nat (w * h)) (Convert.bgra_to_yuv420p src dst w h)) ∧
  Forall PC (drop (Z.to_nat (w * h)) (Convert.bgra_to_yuv420p src dst w h)).
Proof.
  intros Hw Hh Hw2 Hh2 Hdst HY HC.
  rewrite convert_in_place by (done || lia).
  rewrite (drop_ge dst) by lia. rewrite app_nil_r.
  assert (0 ≤ w * h) by (apply Z.mul_nonneg_nonneg; lia).
  assert (length (ConvertSpec.luma_plane src w h) = Z.to_nat (w * h)) as LY.
  { unfold ConvertSpec.luma_plane. rewrite plane_length. lia. }
  unfold ConvertSpec.convert.
  rewrite take_app_length', drop_app_length' by done.
  assert (∀ ci cj, 0 ≤ ci < w / 2 → 0 ≤ cj < h / 2 →
            0 ≤ 2 * ci < w ∧ 0 ≤ 2 * cj < h) as Hblock by (intros; div_lia).
  split; [|apply Forall_app; split]; apply Forall_lookup; intros n y Hn;
    apply plane_lookup in Hn as (i & j & Hi & Hj & _ & ->).
  - rewrite <- pixel_y_spec. by apply HY.
  - rewrite <- pixel_u_spec. by apply HC; apply (Hblock i j).
  - rewrite <- pixel_v_spec. by apply HC; apply (Hblock i j).
Qed.

(** X1: on a source of 8-bit values the conversion stays in the BT.601
    studio range: every luma byte of the frame lies in 16..235 and
    every chroma byte in 16..240, so the clamp to 0..255 never changes
    a sample. *)
Theorem convert_studio_range (src dst : list Z) (w h : Z) :
  0 ≤ w → 0 ≤ h → w mod 2 = 0 → h mod 2 = 0 →
  length dst = Z.to_nat (w * h * 3 / 2) →
  Forall (λ b, 0 ≤ b ≤ 255) src →
  Forall (λ y, 16 ≤ y ≤ 235)
    (take (Z.to_nat (w * h)) (Convert.bgra_to_yuv420p src dst w h)) ∧
  Forall (λ c, 16 ≤ c ≤ 240)
    (drop (Z.to_nat (w * h)) (Convert.bgra_to_yuv420p src dst w h)) ∧
  (∀ k, Convert.clamp_u8
          (Convert.luma (load src (k + 2)) (load src (k + 1)) (load src k))
        = Convert.luma (load src (k + 2)) (load src (k + 1)) (load src k)).
Proof.
  intros Hw Hh Hw2 Hh2 Hdst Hsrc.
  assert (∀ k, 0 ≤ load src k ≤ 255) as Hb by (intros; by apply load_byte).
  destruct (convert_planes_Forall (λ y, 16 ≤ y ≤ 235) (λ c, 16 ≤ c ≤ 240)
              src dst w h) as [HY HC]; try done.
  - intros i j _ _. unfold Convert.pixel_y. simpl.
    pose proof (luma_studio_range _ _ _ (Hb ((j * w + i) * 4 + 2))
                  (Hb ((j * w + i) * 4 + 1)) (Hb ((j * w + i) * 4 + 0))).
    rewrite clamp_u8_id; lia.
  - intros i j _ _. unfold Convert.pixel_u, Convert.pixel_v. simpl.
    pose proof (chroma_u_studio_range _ _ _ (Hb ((j * w + i) * 4 + 2))
                  (Hb ((j * w + i) * 4 + 1)) (Hb ((j * w + i) * 4 + 0))).
    pose proof (chroma_v_studio_range _ _ _ (Hb ((j * w + i) * 4 + 2))
                  (Hb ((j * w + i) * 4 + 1)) (Hb ((j * w + i) * 4 + 0))).
    rewrite !clamp_u8_id; lia.
  - split; [done|]. split; [done|]. intros k.
    pose proof (luma_studio_range _ _ _ (Hb (k + 2)) (Hb (k + 1)) (Hb k)).
    apply clamp_u8_id. lia.
Qed.

Lemma convert_studio_range_witness :
  Forall (λ y, 16 ≤ y ≤ 235)
    (take (Z.to_nat (2 * 2))
       (Convert.bgra_to_yuv420p (Convert.solid_bgra 4 255 0 0 255)
          (replicate 6 0) 2 2)).
Proof.
  destruct (convert_studio_range (Convert.solid_bgra 4 255 0 0 255)
              (replicate 6 0) 2 2) as [HY _];
    [lia | lia | reflexivity | reflexivity | reflexivity | |exact HY].
  repeat constructor; lia.
Defined.

(** X2: a frame without colour has neutral chroma: when red, green and
    blue agree in every pixel, every byte of the two chroma planes is
    128. *)
Theorem gray_frame_has_neutral_chroma (src dst : list Z) (w h : Z) :
  0 ≤ w → 0 ≤ h → w mod 2 = 0 → h mod 2 = 0 →
  length dst = Z.to_nat (w * h * 3 / 2) →
  (∀ i j, 0 ≤ i < w → 0 ≤ j < h →
     load src ((j * w + i) * 4 + 2) = load src ((j * w + i) * 4 + 0) ∧
     load src ((j * w + i) * 4 + 1) = load src ((j * w + i) * 4 + 0)) →
  Forall (λ c, c = 128)
    (drop (Z.to_nat (w * h)) (Convert.bgra_to_yuv420p src dst w h)).
Proof.
  intros Hw Hh Hw2 Hh2 Hdst Hgray.
  destruct (convert_planes_Forall (λ _, True) (λ c, c = 128) src dst w h)
    as [_ HC]; try done.
  intros i j Hi Hj. destruct (Hgray i j Hi Hj) as [Er Eg].
  unfold Convert.pixel_u, Convert.pixel_v, Convert.chroma_u, Convert.chroma_v.
  simpl. rewrite Er, Eg.
  set (v := load src ((j * w + i) * 4 + 0)).
  replace (-38 * v - 74 * v + 112 * v + 128) with 128 by ring.
  replace (112 * v - 94 * v - 18 * v + 128) with 128 by ring.
  done.
Qed.

Lemma gray_frame_has_neutral_chroma_witness :
  Forall (λ c, c = 128)
    (drop (Z.to_nat (2 * 2))
       (Convert.bgra_to_yuv420p (Convert.solid_bgra 4 77 77 77 255)
          (replicate 6 0) 2 2)).
Proof.
  apply (gray_frame_has_neutral_chroma (Convert.solid_bgra 4 77 77 77 255)
           (replicate 6 0) 2 2);
    [lia | lia | reflexivity | reflexivity | reflexivity |].
  intros i j Hi Hj.
  assert (i = 0 ∨ i = 1) as [-> | ->] by lia;
    assert (j = 0 ∨ j = 1) as [-> | ->] by lia; split; reflexivity.
Defined.

(** X3: the frame buffer can be reused from one frame to the next: for
    even dimensions the converted frame does not depend on what the
    buffer held before the call. *)
Theorem convert_overwrites_whole_frame (src dst dst' : list Z) (w h : Z) :
  0 ≤ w → 0 ≤ h → w mod 2 = 0 → h mod 2 = 0 →
  length dst = Z.to_nat (w * h * 3 / 2) →
  length dst' = Z.to_nat (w * h * 3 / 2) →
  Convert.bgra_to_yuv420p src dst w h = Convert.bgra_to_yuv420p src dst' w h.
Proof.
  intros Hw Hh Hw2 Hh2 Hdst Hdst'.
  rewrite !convert_in_place by (done || lia).
  by rewrite !drop_ge by lia.
Qed.

Lemma convert_overwrites_whole_frame_witness :
  Convert.bgra_to_yuv420p (Convert.solid_bgra 4 10 200 30 255)
    (replicate 6 0) 2 2
  = Convert.bgra_to_yuv420p (Convert.solid_bgra 4 10 200 30 255)
      [9; 8; 7; 6; 5; 4] 2 2.
Proof.
  apply convert_overwrites_whole_frame; (lia || reflexivity).
Defined.

(** The loop body at a pixel is the stores at [store_indices], in
    order. *)
Lemma loop_body_store_indices (src : list Z) (w h j i : Z) (d : list Z) :
  Convert.loop_body src w h (j, i) d
  = foldl (λ d kv, store d kv.1 kv.2) d
      (zip (Convert.store_indices w h (j, i))
         [Convert.pixel_y src w i j; Convert.pixel_u src w i j;
          Convert.pixel_v src w i j]).
Proof.
  unfold Convert.loop_body, Convert.pixel_body, Convert.store_indices. simpl.
  by destruct ((Z.land j 1 =? 0) && (Z.land i 1 =? 0)).
Qed.

Lemma stores_within_spec (w h size : Z) :
  Convert.stores_within w h size = true ↔
  ∀ p k, p ∈ Convert.positions w h → k ∈ Convert.store_indices w h p →
         0 ≤ k < size.
Proof.
  unfold Convert.stores_within. rewrite forallb_forall. split.
  - intros Hall p k Hp Hk. apply list_elem_of_In in Hp, Hk.
    specialize (Hall p Hp). rewrite forallb_forall in Hall.
    specialize (Hall k Hk). apply andb_true_iff in Hall as [H0 H1].
    apply Z.leb_le in H0. apply Z.ltb_lt in H1. lia.
  - intros Hall p Hp. apply forallb_forall. intros k Hk.
    apply list_elem_of_In in Hp, Hk. destruct (Hall p k Hp Hk).
    apply andb_true_iff. split; [by apply Z.leb_le|by apply Z.ltb_lt].
Qed.

(** With even dimensions a buffer of one frame takes every store. *)
Lemma stores_within_even (w h size : Z) :
  0 ≤ w → 0 ≤ h → w mod 2 = 0 → h mod 2 = 0 → w * h * 3 / 2 ≤ size →
  Convert.stores_within w h size = true.
Proof.
  intros Hw Hh Hw2 Hh2 Hsize. apply stores_within_spec.
  intros [j i] k Hp Hk. apply elem_of_positions in Hp as [Hj Hi].
  pose proof (row_major_bound w h j i Hi Hj).
  pose proof (chroma_index_bound w h j i Hw2 Hh2 Hi Hj) as Hci.
  rewrite frame_size_even in Hsize by done.
  rewrite <- !quot_2_div in Hsize by done.
  assert (0 ≤ (w ÷ 2) * (h ÷ 2)) by lia.
  unfold Convert.store_indices in Hk.
  destruct ((Z.land j 1 =? 0) && (Z.land i 1 =? 0));
    repeat (apply elem_of_cons in Hk as [->|Hk]); try lia;
    by apply elem_of_nil in Hk.
Qed.

(** With an odd width and a single row, the last pixel stores its V
    byte at offset [w * h * 3 / 2]: one frame is a byte short. *)
Lemma stores_within_odd_row (w size : Z) :
  0 < w → w mod 2 = 1 → size ≤ w * 1 * 3 / 2 →
  Convert.stores_within w 1 size = false.
Proof.
  intros Hw Hodd Hsize.
  destruct (Convert.stores_within w 1 size) eqn:E; [exfalso|done].
  rewrite stores_within_spec in E.
  assert ((Z.land (w - 1) 1 =? 0) = true) as Heven.
  { rewrite land_1_even by lia. apply Z.eqb_eq. div_lia. }
  specialize (E (0, w - 1)
                (w * 1 + (w ÷ 2) * (1 ÷ 2) + ((0 ÷ 2) * (w ÷ 2) + (w - 1) ÷ 2))).
  destruct E as [_ E].
  - apply elem_of_positions. lia.
  - unfold Convert.store_indices. rewrite Heven. simpl.
    do 2 right. left.
  - change (1 ÷ 2) with 0 in E. change (0 ÷ 2) with 0 in E.
    rewrite (quot_2_div (w - 1)) in E by lia.
    revert E Hsize. generalize (w ÷ 2). intros q. div_lia.
Qed.

(** X4: the luma plane does not need even dimensions: whenever [src]
    holds the whole frame and no store of the conversion falls outside
    [dst], the byte at [j * w + i] is the luma of pixel [(i, j)], for
    odd widths and heights too.  With even dimensions a [dst] of [w * h * 3 / 2] bytes
    takes every store; with an odd width and a single row a [dst] of
    that size does not. *)
Theorem luma_plane_any_dimensions (src dst : list Z) (w h : Z) :
  0 ≤ w → 0 ≤ h →
  (w * h * 4 ≤ Z.of_nat (length src) →
   Convert.stores_within w h (Z.of_nat (length dst)) = true →
   ∀ i j, 0 ≤ i < w → 0 ≤ j < h →
     Convert.bgra_to_yuv420p src dst w h !! Z.to_nat (j * w + i)
     = Some (Convert.pixel_y src w i j)) ∧
  (w mod 2 = 0 → h mod 2 = 0 → w * h * 3 / 2 ≤ Z.of_nat (length dst) →
   Convert.stores_within w h (Z.of_nat (length dst)) = true) ∧
  (w mod 2 = 1 → h = 1 → Z.of_nat (length dst) ≤ w * h * 3 / 2 →
   Convert.stores_within w h (Z.of_nat (length dst)) = false).
Proof.
  intros Hw Hh. split; [|split].
  - intros _ Hin i j Hi Hj. apply convert_luma_at; [done..| |done|done].
    rewrite stores_within_spec in Hin.
    destruct (Hin (h - 1, w - 1) ((h - 1) * w + (w - 1))) as [_ Hlast].
    + apply elem_of_positions. lia.
    + unfold Convert.store_indices. left.
    + lia.
  - intros Hw2 Hh2 Hsize. by apply stores_within_even.
  - intros Hodd -> Hsize. apply stores_within_odd_row; [|done..].
    destruct (Z.eq_dec w 0) as [->|]; [done|lia].
Qed.

Lemma luma_plane_any_dimensions_witness :
  Convert.bgra_to_yuv420p (Convert.solid_bgra 3 255 255 255 255)
    (replicate 5 0) 3 1 !! Z.to_nat (0 * 3 + 2)
  = Some (Convert.pixel_y (Convert.solid_bgra 3 255 255 255 255) 3 2 0).
Proof.
  destruct (luma_plane_any_dimensions (Convert.solid_bgra 3 255 255 255 255)
              (replicate 5 0) 3 1) as [Hluma _]; [lia | lia |].
  apply Hluma; [by vm_compute | reflexivity | lia | lia].
Defined.

(** The frame buffer that main allocates for a screen of 3 by 1
    pixels has 4 bytes, and the conversion stores at offset 4. *)
Example odd_row_overruns :
  Vcam.frame_size_of 3 1 = 4 ∧
  Convert.stores_within 3 1 (Vcam.frame_size_of 3 1) = false ∧
  4 ∈ Convert.store_indices 3 1 (0, 2).
Proof.
  split; [reflexivity|]. split; [reflexivity|].
  unfold Convert.store_indices. simpl. do 2 right. left.
Qed.

(** ** vcam.c, vcam_win.c: what reaches the sink, and closing it *)

(** Every way out of the write loop: the sink has been extended by
    the bytes [written .. k) of the frame, the call returned 0 exactly
    when [k] is the frame size, it returns nothing but 0 and -1, and
    the outcomes not looked at are a suffix of the trace. *)
Lemma write_loop_outcome (s : Vcam.sink) (fsize : Z) (buf : list Z)
    (tr : list Vcam.write_outcome) :
  ∀ (written : Z) (out0 : list Z),
    0 ≤ written ≤ fsize →
    ∃ k consumed, written ≤ k ≤ fsize ∧
      Vcam.output (Vcam.write_loop s fsize buf written tr
                     (out0 ++ take (Z.to_nat written) buf))
      = out0 ++ take (Z.to_nat k) buf ∧
      tr = consumed ++ Vcam.pending (Vcam.write_loop s fsize buf written tr
                     (out0 ++ take (Z.to_nat written) buf)) ∧
      (Vcam.ret (Vcam.write_loop s fsize buf written tr
                   (out0 ++ take (Z.to_nat written) buf)) = Some 0 ↔ k = fsize) ∧
      (∀ r, Vcam.ret (Vcam.write_loop s fsize buf written tr
                   (out0 ++ take (Z.to_nat written) buf)) = Some r →
            r = 0 ∨ r = -1).
Proof.
  induction tr as [|o tr IH]; intros written out0 Hw; simpl.
  - destruct (Z.ltb_spec written fsize); simpl.
    + exists written, []. repeat split; (lia || done).
    + exists written, []. repeat split; try (lia || done).
      intros r [= <-]. by left.
  - destruct (Z.ltb_spec written fsize); simpl.
    2:{ exists written, []. repeat split; try (lia || done).
        intros r [= <-]. by left. }
    destruct o as [a|e]; simpl.
    + pose proof (write_count_bounds s (fsize - written)) as Hc.
      set (n := Z.min (Z.max 0 a) (Vcam.write_count s (fsize - written))) in *.
      assert (0 ≤ n ≤ fsize - written) as Hn by lia.
      destruct (Z.ltb_spec n 0); [lia|].
      rewrite <- (assoc_L (++)), take_take_drop.
      replace (Z.to_nat written + Z.to_nat n)%nat
        with (Z.to_nat (written + n)) by lia.
      destruct (IH (written + n) out0) as (k & c & Hk & Ho & Hp & Hr); [lia|].
      exists k, (Vcam.Accepts a :: c). split; [lia|]. split; [done|].
      split; [|done]. simpl. by f_equal.
    + destruct (Z.eqb_spec e Vcam.EINTR).
      * destruct (IH written out0) as (k & c & Hk & Ho & Hp & Hr); [lia|].
        exists k, (Vcam.Fails e :: c). split; [lia|]. split; [done|].
        split; [|done]. simpl. by f_equal.
      * simpl. exists written, [Vcam.Fails e].
        repeat split; try (lia || done). intros r [= <-]. by right.
Qed.

Lemma vcam_write_outcome (s : Vcam.sink) (ctx : Vcam.vcam_ctx)
    (buf : list Z) (len : Z) (tr : list Vcam.write_outcome) (out : list Z) :
  0 ≤ Vcam.frame_size ctx →
  ∃ k consumed,
    0 ≤ k ≤ Vcam.frame_size ctx ∧
    Vcam.output (Vcam.vcam_write s ctx buf len tr out)
    = out ++ take (Z.to_nat k) buf ∧
    tr = consumed ++ Vcam.pending (Vcam.vcam_write s ctx buf len tr out) ∧
    (Vcam.ret (Vcam.vcam_write s ctx buf len tr out) = Some 0 ↔
       Vcam.frame_size ctx ≤ len ∧ k = Vcam.frame_size ctx) ∧
    (len < Vcam.frame_size ctx → k = 0 ∧ consumed = []) ∧
    (∀ r, Vcam.ret (Vcam.vcam_write s ctx buf len tr out) = Some r →
          r = 0 ∨ r = -1).
Proof.
  intros Hfs. unfold Vcam.vcam_write.
  destruct (Z.ltb_spec len (Vcam.frame_size ctx)) as [Hshort|Hlong].
  - exists 0, []. simpl. rewrite app_nil_r.
    repeat split; try (lia || done). intros r [= <-]. by right.
  - destruct (write_loop_outcome s (Vcam.frame_size ctx) buf tr 0 out)
      as (k & c & Hk & Ho & Hp & Hr & Hret); [lia|].
    simpl in Ho, Hp, Hr, Hret. rewrite app_nil_r in Ho, Hp, Hr, Hret.
    exists k, c. split; [lia|]. split; [done|]. split; [done|].
    split; [|split; [lia|done]].
    rewrite Hr. split; [by intros ->|by intros [_ ->]].
Qed.

(** X5: whatever the device answers, [vcam_write] only ever appends the
    next bytes of the frame: after the call, returned or still
    blocked, the sink holds what it held plus the first [k] bytes of
    the buffer for some [k] up to the frame size, [k] is the frame size
    exactly when the call returned 0, a buffer that is too short adds
    nothing, and the write outcomes not consumed are a suffix of those
    offered. *)
Theorem vcam_write_appends_frame_prefix (s : Vcam.sink) (ctx : Vcam.vcam_ctx)
    (buf : list Z) (len : Z) (tr : list Vcam.write_outcome) (out : list Z) :
  0 ≤ Vcam.frame_size ctx →
  ∃ k consumed,
    0 ≤ k ≤ Vcam.frame_size ctx ∧
    Vcam.output (Vcam.vcam_write s ctx buf len tr out)
    = out ++ take (Z.to_nat k) buf ∧
    tr = consumed ++ Vcam.pending (Vcam.vcam_write s ctx buf len tr out) ∧
    (Vcam.ret (Vcam.vcam_write s ctx buf len tr out) = Some 0 ↔
       Vcam.frame_size ctx ≤ len ∧ k = Vcam.frame_size ctx) ∧
    (len < Vcam.frame_size ctx → k = 0 ∧ consumed = []).
Proof.
  intros Hfs.
  destruct (vcam_write_outcome s ctx buf len tr out Hfs)
    as (k & c & Hk & Ho & Hp & Hr & Hs & _).
  by exists k, c.
Qed.

Lemma vcam_write_appends_frame_prefix_witness :
  ∃ k consumed,
    0 ≤ k ≤ 6 ∧
    Vcam.output
      (Vcam.vcam_write Vcam.V4L2
         {| Vcam.fd := 3; Vcam.is_stdout := false; Vcam.width := 2;
            Vcam.height := 2; Vcam.frame_size := 6 |}
         [1; 2; 3; 4; 5; 6] 6 [Vcam.Accepts 4; Vcam.Fails 32] [])
    = [] ++ take (Z.to_nat k) [1; 2; 3; 4; 5; 6] ∧
    [Vcam.Accepts 4; Vcam.Fails 32]
    = consumed ++ Vcam.pending
        (Vcam.vcam_write Vcam.V4L2
           {| Vcam.fd := 3; Vcam.is_stdout := false; Vcam.width := 2;
              Vcam.height := 2; Vcam.frame_size := 6 |}
           [1; 2; 3; 4; 5; 6] 6 [Vcam.Accepts 4; Vcam.Fails 32] []).
Proof.
  destruct (vcam_write_appends_frame_prefix Vcam.V4L2
         {| Vcam.fd := 3; Vcam.is_stdout := false; Vcam.width := 2;
            Vcam.height := 2; Vcam.frame_size := 6 |}
         [1; 2; 3; 4; 5; 6] 6 [Vcam.Accepts 4; Vcam.Fails 32] [])
    as (k & c & Hk & Ho & Hp & _); [simpl; lia|].
  exists k, c. split; [exact Hk|]. split; [exact Ho|exact Hp].
Defined.

(** X6: a sink that [vcam_open] has opened is closed by [vcam_close]
    exactly once, through the descriptor it was opened on, except the
    standard output of the Windows stream sink (device "-"), which is
    never closed; the NULL context closes nothing. *)
Theorem vcam_close_after_open (s : Vcam.sink) (e : Vcam.open_env)
    (device : string) (w h : Z) (ctx : Vcam.vcam_ctx) :
  Vcam.vcam_open s e device w h = Some ctx →
  VcamClose.vcam_close s (Some ctx)
  = match s with
    | Vcam.V4L2 => [Vcam.open_fd e]
    | Vcam.WinStream =>
        if String.eqb device "-" then [] else [Vcam.open_fd e]
    end ∧
  VcamClose.vcam_close s None = [].
Proof.
  unfold Vcam.vcam_open. intros Hopen. split; [|done].
  destruct (negb (Vcam.calloc_ok e)); [done|]. destruct s.
  - destruct (Z.ltb_spec (Vcam.open_fd e) 0); [done|].
    destruct (Vcam.config_ret e <? 0); [done|].
    injection Hopen as <-. simpl.
    by destruct (Z.geb_spec (Vcam.open_fd e) 0); [|lia].
  - destruct (String.eqb device "-").
    + destruct (Vcam.config_ret e =? -1); [done|].
      injection Hopen as <-. simpl. by rewrite andb_false_r.
    + destruct (Z.ltb_spec (Vcam.open_fd e) 0); [done|].
      injection Hopen as <-. simpl.
      by destruct (Z.geb_spec (Vcam.open_fd e) 0); [|lia].
Qed.

Lemma vcam_close_after_open_witness :
  VcamClose.vcam_close Vcam.WinStream
    (Some {| Vcam.fd := 1; Vcam.is_stdout := true; Vcam.width := 4;
             Vcam.height := 2; Vcam.frame_size := Vcam.frame_size_of 4 2 |})
  = [].
Proof.
  destruct (vcam_close_after_open Vcam.WinStream
              {| Vcam.calloc_ok := true; Vcam.open_fd := 1;
                 Vcam.config_ret := 0 |} "-" 4 2
              {| Vcam.fd := 1; Vcam.is_stdout := true; Vcam.width := 4;
                 Vcam.height := 2; Vcam.frame_size := Vcam.frame_size_of 4 2 |})
    as [H _]; [reflexivity|exact H].
Defined.

(** ** capture_win.c: the copy out of the mapped texture *)

(** The invariant rule of a [for] loop from 0. *)
Lemma c_for_invariant {St : Type} (I : Z → St → Prop) (n : Z)
    (body : Z → St → St) (s : St) :
  0 ≤ n → I 0 s →
  (∀ i s', 0 ≤ i < n → I i s' → I (i + 1) (body i s')) →
  I n (c_for 0 n body s).
Proof.
  intros Hn H0 Hstep. unfold c_for. rewrite Z.sub_0_r.
  rewrite <- (Z2Nat.id n) by done.
  assert (∀ k : nat, (k ≤ Z.to_nat n)%nat →
            I (Z.of_nat k) (foldl (λ acc i, body i acc) s (seqZ 0 (Z.of_nat k))))
    as Hk; [|by apply Hk].
  induction k as [|k IH]; intros Hle; [done|].
  rewrite seqZ_S, foldl_app. simpl.
  replace (Z.of_nat (S k)) with (Z.of_nat k + 1) by lia.
  apply Hstep; [lia|]. apply IH. lia.
Qed.

Lemma memcpy_length (dst src : list Z) (off n : Z) :
  0 ≤ off → 0 ≤ n →
  (Z.to_nat (off + n) ≤ length dst)%nat → (Z.to_nat n ≤ length src)%nat →
  length (memcpy dst off src n) = length dst.
Proof.
  intros Hoff Hn Hdst Hsrc. unfold memcpy.
  rewrite !length_app, !length_take, length_drop. lia.
Qed.

Lemma memcpy_lookup_in (dst src : list Z) (off n x : Z) :
  0 ≤ off → 0 ≤ x < n →
  (Z.to_nat off ≤ length dst)%nat → (Z.to_nat n ≤ length src)%nat →
  memcpy dst off src n !! Z.to_nat (off + x) = src !! Z.to_nat x.
Proof.
  intros Hoff Hx Hdst Hsrc. unfold memcpy.
  rewrite lookup_app_r by (rewrite length_take; lia).
  rewrite length_take_le by done.
  replace (Z.to_nat (off + x) - Z.to_nat off)%nat with (Z.to_nat x) by lia.
  rewrite lookup_app_l by (rewrite length_take; lia).
  apply lookup_take_lt. lia.
Qed.

Lemma memcpy_lookup_before (dst src : list Z) (off n : Z) (k : nat) :
  (k < Z.to_nat off)%nat → (Z.to_nat off ≤ length dst)%nat →
  memcpy dst off src n !! k = dst !! k.
Proof.
  intros Hk Hdst. unfold memcpy.
  rewrite lookup_app_l by (rewrite length_take; lia).
  by apply lookup_take_lt.
Qed.

Lemma to_size_t_small (x : Z) : 0 ≤ x < 2 ^ 64 → to_size_t x = x.
Proof. intros Hx. unfold to_size_t, SIZE_WIDTH. by apply Z.mod_small. Qed.

Lemma to_uint_small (x : Z) : 0 ≤ x < 2 ^ 32 → to_uint x = x.
Proof. intros Hx. unfold to_uint. by apply Z.mod_small. Qed.

Lemma foldl_ext_in_seqZ {St : Type} (f g : Z → St → St) (n : Z) (s : St) :
  (∀ i s', 0 ≤ i < n → f i s' = g i s') →
  foldl (λ acc i, f i acc) s (seqZ 0 n) = foldl (λ acc i, g i acc) s (seqZ 0 n).
Proof.
  intros Hfg.
  assert (∀ l : list Z, (∀ i, i ∈ l → 0 ≤ i < n) →
            ∀ s0, foldl (λ acc i, f i acc) s0 l = foldl (λ acc i, g i acc) s0 l)
    as Hl.
  { induction l as [|i l IH]; intros Hin s0; simpl; [done|].
    rewrite Hfg by (apply Hin; left). apply IH. intros j Hj. apply Hin. by right. }
  apply Hl. intros i Hi. apply elem_of_seqZ in Hi. lia.
Qed.

(** The row loop of the copy, for a pitch of [pitch] bytes and rows of
    [sd] bytes. *)
Lemma copy_row_loop (buf pData : list Z) (sd pitch h : Z) :
  0 ≤ sd ≤ pitch → 0 ≤ h →
  length buf = Z.to_nat (h * sd) →
  (Z.to_nat (h * pitch) ≤ length pData)%nat →
  length (c_for 0 h (λ y b,
            memcpy b (y * sd) (drop (Z.to_nat (y * pitch)) pData) sd) buf)
  = length buf ∧
  ∀ y x, 0 ≤ y < h → 0 ≤ x < sd →
    c_for 0 h (λ y b,
      memcpy b (y * sd) (drop (Z.to_nat (y * pitch)) pData) sd) buf
      !! Z.to_nat (y * sd + x)
    = pData !! Z.to_nat (y * pitch + x).
Proof.
  intros Hsd Hh Hbuf HpData.
  apply (c_for_invariant (λ y0 b,
    length b = length buf ∧
    ∀ y x, 0 ≤ y < y0 → 0 ≤ x < sd →
      b !! Z.to_nat (y * sd + x) = pData !! Z.to_nat (y * pitch + x)));
    [done|split; [done|intros; lia]|].
  intros y0 b Hy0 [Hlen Hrows].
  assert ((y0 + 1) * sd ≤ h * sd) by (apply Z.mul_le_mono_nonneg_r; lia).
  assert ((y0 + 1) * pitch ≤ h * pitch) by (apply Z.mul_le_mono_nonneg_r; lia).
  assert (0 ≤ y0 * sd) by (apply Z.mul_nonneg_nonneg; lia).
  assert (0 ≤ y0 * pitch) by (apply Z.mul_nonneg_nonneg; lia).
  assert (Z.to_nat sd ≤ length (drop (Z.to_nat (y0 * pitch)) pData))%nat
    by (rewrite length_drop; lia).
  split.
  - rewrite memcpy_length; [done|lia..].
  - intros y x Hy Hx. destruct (decide (y = y0)) as [->|Hne].
    + rewrite memcpy_lookup_in by lia. rewrite lookup_drop. f_equal. lia.
    + assert ((y + 1) * sd ≤ y0 * sd) by (apply Z.mul_le_mono_nonneg_r; lia).
      rewrite memcpy_lookup_before by lia. apply Hrows; lia.
Qed.

(** X7: a successful grab strips the row padding of the mapped
    texture: byte [x] of row [y] of the frame buffer is byte [x] of row
    [y] of the texture, whose rows are [RowPitch] bytes apart, whether
    the pitch equals the row length (one bulk copy) or exceeds it (one
    copy per row); the buffer keeps its length. *)
Theorem copy_rows_strips_padding (ctx : CaptureWin.capture_ctx)
    (e : CaptureWin.grab_env) :
  0 ≤ CaptureWin.width ctx < 2 ^ 31 →
  0 ≤ CaptureWin.height ctx < 2 ^ 31 →
  4 * CaptureWin.width ctx ≤ CaptureWin.RowPitch e < 2 ^ 32 →
  CaptureWin.height ctx * CaptureWin.RowPitch e < 2 ^ 32 →
  length (CaptureWin.buffer ctx)
  = Z.to_nat (CaptureWin.height ctx * (4 * CaptureWin.width ctx)) →
  (Z.to_nat (CaptureWin.height ctx * CaptureWin.RowPitch e)
   ≤ length (CaptureWin.pData e))%nat →
  length (CaptureWin.copy_rows ctx e) = length (CaptureWin.buffer ctx) ∧
  ∀ y x, 0 ≤ y < CaptureWin.height ctx → 0 ≤ x < 4 * CaptureWin.width ctx →
    CaptureWin.copy_rows ctx e !! Z.to_nat (y * (4 * CaptureWin.width ctx) + x)
    = CaptureWin.pData e !! Z.to_nat (y * CaptureWin.RowPitch e + x).
Proof.
  destruct ctx as [w h buf bsz], e as [hr1 hr2 hr3 pData pitch]. simpl.
  intros Hw Hh Hpitch Hfit Hbuf HpData. unfold CaptureWin.copy_rows. simpl.
  rewrite (to_size_t_small w), (to_size_t_small h), (to_size_t_small pitch) by lia.
  rewrite (to_size_t_small (w * 4)) by lia.
  replace (w * 4) with (4 * w) by lia. set (sd := 4 * w) in *.
  assert (0 ≤ h * sd) by (apply Z.mul_nonneg_nonneg; lia).
  assert (h * sd < 2 ^ 64) by (unfold sd; nia).
  destruct (Z.eqb_spec pitch sd) as [->|Hne].
  - rewrite (Z.mul_comm sd h), to_size_t_small by lia.
    unfold memcpy. simpl. rewrite drop_ge by lia. rewrite app_nil_r.
    split; [rewrite length_take; lia|].
    intros y x Hy Hx. apply lookup_take_lt.
    assert ((y + 1) * sd ≤ h * sd) by (apply Z.mul_le_mono_nonneg_r; lia).
    assert (0 ≤ y * sd) by (apply Z.mul_nonneg_nonneg; lia). lia.
  - assert (c_for 0 h (λ y b,
              memcpy b (to_size_t (to_size_t y * sd))
                (drop (Z.to_nat (to_uint (to_uint y * pitch))) pData) sd) buf
            = c_for 0 h (λ y b,
                memcpy b (y * sd) (drop (Z.to_nat (y * pitch)) pData) sd) buf)
      as ->; [|apply copy_row_loop; lia].
    unfold c_for. rewrite Z.sub_0_r. apply foldl_ext_in_seqZ.
    intros y b Hy.
    assert ((y + 1) * sd ≤ h * sd) by (apply Z.mul_le_mono_nonneg_r; lia).
    assert ((y + 1) * pitch ≤ h * pitch) by (apply Z.mul_le_mono_nonneg_r; lia).
    assert (0 ≤ y * sd) by (apply Z.mul_nonneg_nonneg; lia).
    assert (0 ≤ y * pitch) by (apply Z.mul_nonneg_nonneg; lia).
    rewrite (to_size_t_small y), (to_uint_small y) by lia.
    by rewrite to_size_t_small, to_uint_small by lia.
Qed.

Lemma copy_rows_strips_padding_witness :
  CaptureWin.copy_rows
    {| CaptureWin.width := 1; CaptureWin.height := 2;
       CaptureWin.buffer := replicate 8 0; CaptureWin.buffer_size := 8 |}
    (CaptureWin.frame_env
       [1; 2; 3; 4; 0; 0; 0; 0; 5; 6; 7; 8; 0; 0; 0; 0] 8)
    !! Z.to_nat (1 * (4 * 1) + 2)
  = [1; 2; 3; 4; 0; 0; 0; 0; 5; 6; 7; 8; 0; 0; 0; 0] !! Z.to_nat (1 * 8 + 2).
Proof.
  destruct (copy_rows_strips_padding
    {| CaptureWin.width := 1; CaptureWin.height := 2;
       CaptureWin.buffer := replicate 8 0; CaptureWin.buffer_size := 8 |}
    (CaptureWin.frame_env
       [1; 2; 3; 4; 0; 0; 0; 0; 5; 6; 7; 8; 0; 0; 0; 0] 8)) as [_ Hrows];
    [simpl; lia | simpl; lia | simpl; lia | simpl; lia | reflexivity
    | simpl; lia |].
  apply (Hrows 1 2); simpl; lia.
Defined.

(** ** capture_win.c: what a grab and capture_init leave behind *)

(** X8: no grab changes the dimensions or the recorded buffer size of
    the session; a grab that returns NULL (access lost, a failed
    AcquireNextFrame, QueryInterface or Map) leaves the whole context,
    frame buffer included, exactly as it was and logs its reason; a
    grab that returns a frame returns the buffer of the new context. *)
Theorem grab_keeps_session (ctx ctx' : CaptureWin.capture_ctx)
    (e : CaptureWin.grab_env) (r : option (list Z)) (logs : list log_msg) :
  CaptureWin.capture_grab ctx e = (r, ctx', logs) →
  CaptureWin.width ctx' = CaptureWin.width ctx ∧
  CaptureWin.height ctx' = CaptureWin.height ctx ∧
  CaptureWin.buffer_size ctx' = CaptureWin.buffer_size ctx ∧
  (r = None → ctx' = ctx ∧ logs ≠ []) ∧
  (∀ px, r = Some px → CaptureWin.buffer ctx' = px).
Proof.
  unfold CaptureWin.capture_grab. intros Hgrab.
  repeat case_match; injection Hgrab as <- <- <-;
    repeat split; simpl; try done; by intros px [= <-].
Qed.

Lemma grab_keeps_session_witness :
  {| CaptureWin.width := 1; CaptureWin.height := 1;
     CaptureWin.buffer := [1; 2; 3; 4]; CaptureWin.buffer_size := 4 |}
  = {| CaptureWin.width := 1; CaptureWin.height := 1;
       CaptureWin.buffer := [1; 2; 3; 4]; CaptureWin.buffer_size := 4 |} ∧
  [LogAccessLost] ≠ [].
Proof.
  destruct (grab_keeps_session
    {| CaptureWin.width := 1; CaptureWin.height := 1;
       CaptureWin.buffer := [1; 2; 3; 4]; CaptureWin.buffer_size := 4 |}
    {| CaptureWin.width := 1; CaptureWin.height := 1;
       CaptureWin.buffer := [1; 2; 3; 4]; CaptureWin.buffer_size := 4 |}
    CaptureWin.access_lost_env None [LogAccessLost])
    as (_ & _ & _ & Hnull & _); [reflexivity|].
  apply Hnull. reflexivity.
Defined.

(** X9: capture_init succeeds exactly when CoInitializeEx succeeds or
    answers RPC_E_CHANGED_MODE, both allocations succeed and none of
    the seven Direct3D / DXGI calls fails; the session then has the
    dimensions of the desktop rectangle and, for dimensions in the
    [int] range, a frame buffer of exactly width * height * 4 bytes. *)
Theorem capture_init_session (e : CaptureWin.init_env) :
  ((∃ ctx logs, CaptureWin.capture_init e = (Some ctx, logs)) ↔
   (0 ≤ CaptureWin.hr_CoInitializeEx e ∨
    CaptureWin.hr_CoInitializeEx e = CaptureWin.RPC_E_CHANGED_MODE) ∧
   CaptureWin.calloc_ok e = true ∧
   0 ≤ CaptureWin.hr_D3D11CreateDevice e ∧
   0 ≤ CaptureWin.hr_QueryInterface_device e ∧
   0 ≤ CaptureWin.hr_GetAdapter e ∧
   0 ≤ CaptureWin.hr_EnumOutputs e ∧
   0 ≤ CaptureWin.hr_QueryInterface_output1 e ∧
   0 ≤ CaptureWin.hr_DuplicateOutput e ∧
   0 ≤ CaptureWin.hr_CreateTexture2D e ∧
   CaptureWin.malloc_ok e = true) ∧
  (∀ ctx logs, CaptureWin.capture_init e = (Some ctx, logs) →
     CaptureWin.width ctx = CaptureWin.desktop_right e - CaptureWin.desktop_left e ∧
     CaptureWin.height ctx = CaptureWin.desktop_bottom e - CaptureWin.desktop_top e ∧
     (0 ≤ CaptureWin.width ctx < 2 ^ 31 →
      0 ≤ CaptureWin.height ctx < 2 ^ 31 →
      CaptureWin.buffer_size ctx
      = CaptureWin.width ctx * CaptureWin.height ctx * 4 ∧
      length (CaptureWin.buffer ctx)
      = Z.to_nat (CaptureWin.width ctx * CaptureWin.height ctx * 4))).
Proof.
  unfold CaptureWin.capture_init, CaptureWin.FAILED. split.
  - destruct (Z.ltb_spec (CaptureWin.hr_CoInitializeEx e) 0) as [Hneg|Hpos];
      simpl.
    + destruct (Z.eqb_spec (CaptureWin.hr_CoInitializeEx e) CaptureWin.S_FALSE)
        as [E|_]; [unfold CaptureWin.S_FALSE in E; lia|]. simpl.
      destruct (Z.eqb_spec (CaptureWin.hr_CoInitializeEx e)
                  CaptureWin.RPC_E_CHANGED_MODE) as [E|N]; simpl.
      * destruct (CaptureWin.calloc_ok e), (CaptureWin.malloc_ok e); simpl;
          repeat (match goal with
                  | |- context [?x <? 0] => destruct (Z.ltb_spec x 0)
                  end; simpl);
          split; try (intros (? & ? & [=]));
          try (intros; eauto; fail); intros; lia || naive_solver.
      * split; [by intros (? & ? & [=])|]. intros [[?|?] _]; lia || done.
    + destruct (CaptureWin.calloc_ok e), (CaptureWin.malloc_ok e); simpl;
        repeat (match goal with
                | |- context [?x <? 0] => destruct (Z.ltb_spec x 0)
                end; simpl);
        split; try (intros (? & ? & [=]));
        try (intros; eauto; fail); intros; lia || naive_solver.
  - intros ctx logs Hinit.
    repeat (case_match; try done). injection Hinit as <- _. simpl.
    split; [done|]. split; [done|]. intros Hw Hh.
    set (w := CaptureWin.desktop_right e - CaptureWin.desktop_left e) in *.
    set (h := CaptureWin.desktop_bottom e - CaptureWin.desktop_top e) in *.
    assert (0 ≤ w * h) by (apply Z.mul_nonneg_nonneg; lia).
    assert (w * h < 2 ^ 62) by nia.
    rewrite (to_size_t_small w), (to_size_t_small h) by lia.
    rewrite (to_size_t_small (w * h)) by lia.
    rewrite (to_size_t_small (w * h * 4)) by lia.
    split; [done|]. unfold malloc_block. by rewrite length_fmap, length_seqZ.
Qed.

Lemma capture_init_session_witness :
  CaptureWin.buffer_size
    {| CaptureWin.width := 2; CaptureWin.height := 1;
       CaptureWin.buffer := replicate 8 205; CaptureWin.buffer_size := 8 |}
  = 2 * 1 * 4.
Proof.
  destruct (capture_init_session (CaptureWin.init_ok_env 2 1 (λ _, 205)))
    as [_ Hsize].
  destruct (Hsize
    {| CaptureWin.width := 2; CaptureWin.height := 1;
       CaptureWin.buffer := replicate 8 205; CaptureWin.buffer_size := 8 |}
    [LogCaptureOpened]) as (_ & _ & Hbuf); [reflexivity|].
  destruct Hbuf as [Hbs _]; [simpl; lia | simpl; lia | exact Hbs].
Defined.

(** The two views of capture_init agree on success. *)
Lemma capture_init_resources_agree (e : CaptureWin.init_env) :
  is_Some (CaptureWin.capture_init e).1
  ↔ is_Some (CaptureWinResources.capture_init e).1.
Proof.
  unfold CaptureWin.capture_init, CaptureWinResources.capture_init.
  repeat (case_match; simpl; try done);
    split; (by intros [? [=]]) || (intros _; eauto).
Qed.

(** X10: capture_init does not leak: when it fails, at whatever step,
    every object it had acquired has been released exactly once, none
    twice and none before it was acquired; when it succeeds, exactly
    the context, the device, the device context, the duplication, the
    staging texture and the frame buffer are held, and capture_free
    releases each of them once, leaving nothing. *)
Theorem capture_init_releases_everything (e : CaptureWin.init_env)
    (c : option CaptureWinResources.handles)
    (evs : list CaptureWinResources.res_event) :
  CaptureWinResources.capture_init e = (c, evs) →
  (c = None → CaptureWinResources.held_after [] evs = Some []) ∧
  (∀ hs, c = Some hs →
     CaptureWinResources.held_after [] evs
     = Some [CaptureWinResources.Buffer; CaptureWinResources.Staging;
             CaptureWinResources.Duplication; CaptureWinResources.Context;
             CaptureWinResources.Device; CaptureWinResources.Ctx] ∧
     CaptureWinResources.held_after []
       (evs ++ CaptureWinResources.capture_free (Some hs)) = Some []) ∧
  (is_Some c ↔ is_Some (CaptureWin.capture_init e).1).
Proof.
  intros Hinit. split; [|split].
  - intros ->. unfold CaptureWinResources.capture_init in Hinit.
    repeat (case_match; try done); injection Hinit as <-; reflexivity.
  - intros hs ->. unfold CaptureWinResources.capture_init in Hinit.
    repeat (case_match; try done); injection Hinit as <- <-.
    split; reflexivity.
  - rewrite capture_init_resources_agree. by rewrite Hinit.
Qed.

Lemma capture_init_releases_everything_witness :
  CaptureWinResources.held_after []
    (CaptureWinResources.capture_init CaptureWinResources.duplication_denied).2
  = Some [].
Proof.
  destruct (capture_init_releases_everything
              CaptureWinResources.duplication_denied
              (CaptureWinResources.capture_init
                 CaptureWinResources.duplication_denied).1
              (CaptureWinResources.capture_init
                 CaptureWinResources.duplication_denied).2) as [Hnone _];
    [reflexivity|].
  apply Hnone. reflexivity.
Defined.

(** ** capture.c: the X11 session *)

(** X11: in an X11 session the frame a grab returns is the session's
    current image, NULL exactly when the image pointer is NULL; the
    capture mode and the dimensions never change; in MIT-SHM mode a
    grab never fails, in fallback mode it fails exactly when XGetImage
    does; and a session is in MIT-SHM mode only with an image
    attached, from capture_init on. *)
Theorem x11_session_invariant :
  (∀ e ctx logs, CaptureX11.capture_init e = (Some ctx, logs) →
     CaptureX11.width ctx = CaptureX11.screen_width e ∧
     CaptureX11.height ctx = CaptureX11.screen_height e ∧
     (CaptureX11.use_shm ctx = true ↔
        CaptureX11.shm_extension e = true ∧ CaptureX11.shm_image_ok e = true ∧
        0 ≤ CaptureX11.shmid e) ∧
     (CaptureX11.use_shm ctx = true → is_Some (CaptureX11.img ctx))) ∧
  (∀ ctx g r ctx' logs, CaptureX11.capture_grab ctx g = (r, ctx', logs) →
     r = CaptureX11.img ctx' ∧
     CaptureX11.use_shm ctx' = CaptureX11.use_shm ctx ∧
     CaptureX11.width ctx' = CaptureX11.width ctx ∧
     CaptureX11.height ctx' = CaptureX11.height ctx ∧
     (r = None ↔
        CaptureX11.use_shm ctx = false ∧ CaptureX11.get_image_ok g = false) ∧
     (CaptureX11.use_shm ctx' = true → is_Some (CaptureX11.img ctx'))).
Proof.
  split.
  - intros e ctx logs. unfold CaptureX11.capture_init. intros Hinit.
    destruct (CaptureX11.calloc_ok e); [|done].
    destruct (CaptureX11.display_ok e); [|done]. simpl in Hinit.
    destruct (CaptureX11.shm_extension e), (CaptureX11.shm_image_ok e);
      simpl in Hinit; try destruct (Z.ltb_spec (CaptureX11.shmid e) 0);
      injection Hinit as <- _; simpl; repeat split; try done;
      try (intros (? & ? & ?)); try (intros [? ?]); lia || done || eauto.
  - intros ctx g r ctx' logs. unfold CaptureX11.capture_grab. intros Hgrab.
    destruct (CaptureX11.use_shm ctx) eqn:Hshm;
      [|destruct (CaptureX11.get_image_ok g) eqn:Hget];
      injection Hgrab as <- <- _; simpl; repeat split; try done;
      try (intros [? ?]); done || eauto.
Qed.

Lemma x11_session_invariant_witness :
  (None : option (list Z))
  = CaptureX11.img
      {| CaptureX11.width := 2; CaptureX11.height := 2;
         CaptureX11.use_shm := false; CaptureX11.img := None |}.
Proof.
  destruct x11_session_invariant as [_ Hgrab].
  destruct (Hgrab
    {| CaptureX11.width := 2; CaptureX11.height := 2;
       CaptureX11.use_shm := false; CaptureX11.img := Some [1; 2] |}
    {| CaptureX11.screen := []; CaptureX11.get_image_ok := false |}
    None
    {| CaptureX11.width := 2; CaptureX11.height := 2;
       CaptureX11.use_shm := false; CaptureX11.img := None |} [])
    as [Hr _]; [reflexivity|exact Hr].
Defined.

(** ** main.c: frames delivered, resources released, exit codes *)

Lemma occurrences_app (ev : Main.event) (evs1 evs2 : list Main.event) :
  MainTrace.occurrences ev (evs1 ++ evs2)
  = (MainTrace.occurrences ev evs1 + MainTrace.occurrences ev evs2)%nat.
Proof. unfold MainTrace.occurrences. by rewrite filter_app, length_app. Qed.

Lemma occurrences_cons_eq (ev : Main.event) (evs : list Main.event) :
  MainTrace.occurrences ev (ev :: evs) = S (MainTrace.occurrences ev evs).
Proof.
  unfold MainTrace.occurrences. rewrite filter_cons.
  by destruct (decide (ev = ev)).
Qed.

Lemma occurrences_cons_ne (ev x : Main.event) (evs : list Main.event) :
  x ≠ ev →
  MainTrace.occurrences ev (x :: evs) = MainTrace.occurrences ev evs.
Proof.
  intros Hne. unfold MainTrace.occurrences. rewrite filter_cons.
  by destruct (decide (x = ev)).
Qed.

Lemma occurrences_loop_events (ev : Main.event) (evs : list Main.event) :
  MainTrace.loop_event ev = false →
  Forall (λ x, MainTrace.loop_event x = true) evs →
  MainTrace.occurrences ev evs = 0%nat.
Proof.
  intros Hev Hall. unfold MainTrace.occurrences.
  induction Hall as [|x evs Hx Hall IH]; [done|].
  rewrite filter_cons. destruct (decide (x = ev)) as [->|_]; [congruence|done].
Qed.

Lemma logs_are_loop_events (logs : list log_msg) :
  Forall (λ x, MainTrace.loop_event x = true) (Main.EvLog <$> logs).
Proof. apply Forall_fmap, Forall_forall. by intros m _. Qed.

(** Counts the start-up and shutdown events of a trace that is built
    from explicit events, log lines and the events of the loop. *)
Ltac count_events :=
  repeat first
    [ rewrite occurrences_app
    | rewrite occurrences_cons_eq
    | rewrite occurrences_cons_ne by done
    | rewrite occurrences_loop_events
        by (done || apply logs_are_loop_events) ];
  change (MainTrace.occurrences _ []) with 0%nat.

Lemma pace_long_loop_events (s : Vcam.sink) (frame_ns elapsed : Z) :
  Forall (λ x, MainTrace.loop_event x = true)
    (Main.pace_long s frame_ns elapsed).
Proof.
  unfold Main.pace_long. destruct (_ >? 0); by repeat constructor.
Qed.

Section MainExtras.

Context {B : CaptureBackend}.
Variable sink : Vcam.sink.

Lemma iteration_loop_events (cam : Vcam.vcam_ctx)
    (w h yuv_size fps frame_ns : Z) (st st' : Main.loop_state)
    (e : Main.iter_env) (f : Main.flow) (evs : list Main.event) :
  Main.iteration sink cam w h yuv_size fps frame_ns st e = (f, st', evs) →
  Forall (λ x, MainTrace.loop_event x = true) evs.
Proof.
  unfold Main.iteration. intros Hit.
  destruct (cap_grab (Main.cap st) (Main.grab e)) as [[[px|] cap'] logs].
  - destruct (Vcam.ret _) as [r|]; [destruct (r <? 0)|];
      injection Hit as _ _ <-;
      repeat (apply Forall_cons; split; [done|]);
      repeat (apply Forall_app; split);
      auto using logs_are_loop_events, pace_long_loop_events;
      try (by repeat constructor).
    destruct (_ =? 0); by repeat constructor.
  - injection Hit as _ _ <-.
    apply Forall_cons; split; [done|]. apply Forall_app; split;
      [apply logs_are_loop_events|by repeat constructor].
Qed.

Lemma main_loop_loop_events (cam : Vcam.vcam_ctx)
    (w h yuv_size fps frame_ns : Z) (envs : list Main.iter_env) :
  ∀ (st st' : Main.loop_state) (s : Main.status) (evs : list Main.event),
    Main.main_loop sink cam w h yuv_size fps frame_ns st envs = (s, st', evs) →
    Forall (λ x, MainTrace.loop_event x = true) evs.
Proof.
  induction envs as [|e envs IH]; intros st st' s evs; simpl.
  - by intros [= _ _ <-].
  - destruct (Main.running e); [|by intros [= _ _ <-]].
    destruct (Main.iteration _ _ _ _ _ _ _ _ _) as [[f st1] evs1] eqn:Hit.
    apply iteration_loop_events in Hit.
    destruct f.
    + destruct (Main.main_loop _ _ _ _ _ _ _ _ _) as [[s2 st2] evs2] eqn:Hl.
      intros [= _ _ <-]. apply Forall_app. split; [done|]. by eapply IH.
    + by intros [= _ _ <-].
    + by intros [= _ _ <-].
Qed.



End MainExtras.


Section MainExits.

Context {B : CaptureBackend}.
Variable sink : Vcam.sink.

(** X13: every run of main that gets past the options and returns has
    released what it opened: capture_free is called exactly once when
    capture_init returned a session and never otherwise, vcam_close
    exactly once when vcam_open returned a sink and never otherwise,
    on every exit path; and the exit code is 0 exactly when capture,
    sink and frame buffer were all obtained, so that the loop ran. *)
Theorem main_releases_what_it_opened (env : Main.main_env)
    (device : string) (fps code : Z) (evs : list Main.event) :
  Main.parse_opts (Main.opts env) Main.default_device Main.default_fps
  = Main.Proceed device fps →
  Main.fps_out_of_range fps = false →
  Main.main sink env = (Some code, evs) →
  MainTrace.occurrences Main.EvCaptureInit evs = 1%nat ∧
  MainTrace.occurrences Main.EvCaptureFree evs
  = match (cap_init (Main.init env)).1 with
    | Some _ => 1
    | None => 0
    end%nat ∧
  MainTrace.occurrences Main.EvVcamClose evs
  = match (cap_init (Main.init env)).1 with
    | Some cap0 =>
        match Vcam.vcam_open sink (Main.vopen env) device
                (cap_width cap0) (cap_height cap0) with
        | Some _ => 1
        | None => 0
        end
    | None => 0
    end%nat ∧
  (code = 0 ∨ code = 1) ∧
  (code = 0 ↔
     ∃ cap0 cam, (cap_init (Main.init env)).1 = Some cap0 ∧
       Vcam.vcam_open sink (Main.vopen env) device
         (cap_width cap0) (cap_height cap0) = Some cam ∧
       Main.yuv_malloc_ok env = true).
Proof.
  intros Hparse Hfps. unfold Main.main. rewrite Hparse, Hfps.
  destruct (cap_init (Main.init env)) as [[cap0|] logs]; simpl.
  - destruct (Vcam.vcam_open _ _ _ _ _) as [cam|] eqn:Hopen.
    + destruct (Main.yuv_malloc_ok env); simpl.
      * destruct (Main.main_loop _ _ _ _ _ _ _ _ _) as [[s st] levs] eqn:Hloop.
        apply main_loop_loop_events in Hloop.
        destruct s; [done|]. intros [= <- <-]. count_events.
        do 3 (split; [done|]). split; [by left|].
        split; [|done]. intros _. by exists cap0, cam.
      * intros [= <- <-]. count_events.
        do 3 (split; [done|]). split; [by right|].
        split; [done|]. by intros (? & ? & ? & ? & ?).
    + intros [= <- <-]. count_events.
      do 3 (split; [done|]). split; [by right|].
      split; [done|]. intros (? & ? & ? & ? & ?). simplify_eq.
  - intros [= <- <-]. count_events.
    do 3 (split; [done|]). split; [by right|].
    split; [done|]. by intros (? & ? & ? & _).
Qed.

(** X14: the first --help or unknown option decides the run, whatever
    was set before it and whatever follows: main prints the usage text
    and returns 0 for --help and 1 for an unknown option, without the
    frame-rate check and without touching capture or sink. *)
Theorem help_and_unknown_options_end_the_run (env : Main.main_env)
    (pre post : list Main.opt) :
  Forall (λ o, MainTrace.is_setting o = true) pre →
  (Main.opts env = pre ++ Main.OptHelp :: post →
     Main.main sink env = (Some 0, [Main.EvLog LogUsage])) ∧
  (Main.opts env = pre ++ Main.OptOther :: post →
     Main.main sink env = (Some 1, [Main.EvLog LogUsage])).
Proof.
  intros Hpre.
  assert (∀ d f, Main.parse_opts (pre ++ Main.OptHelp :: post) d f
                 = Main.Return 0 ∧
                 Main.parse_opts (pre ++ Main.OptOther :: post) d f
                 = Main.Return 1) as Hparse.
  { induction Hpre as [|o pre Ho Hpre IH]; intros d f; [done|].
    destruct o; try done; simpl; apply IH. }
  split; intros Hopts; unfold Main.main; rewrite Hopts;
    by rewrite (proj1 (Hparse _ _)) || rewrite (proj2 (Hparse _ _)).
Qed.

End MainExits.

Lemma main_releases_what_it_opened_witness :
  MainTrace.occurrences Main.EvCaptureFree
    (Main.main Vcam.V4L2 Main.x11_one_frame_run).2
  = 1%nat.
Proof.
  destruct (main_releases_what_it_opened (B := x11_backend) Vcam.V4L2
              Main.x11_one_frame_run Main.default_device Main.default_fps 0
              (Main.main Vcam.V4L2 Main.x11_one_frame_run).2)
    as (_ & Hfree & _); [reflexivity | reflexivity | reflexivity |].
  exact Hfree.
Defined.

Lemma help_and_unknown_options_end_the_run_witness :
  Main.main Vcam.V4L2 (Main.x11_start [Main.OptFps 0; Main.OptHelp])
  = (Some 0, [Main.EvLog LogUsage]).
Proof.
  destruct (help_and_unknown_options_end_the_run (B := x11_backend) Vcam.V4L2
              (Main.x11_start [Main.OptFps 0; Main.OptHelp])
              [Main.OptFps 0] []) as [Hhelp _].
  - by repeat constructor.
  - apply Hhelp. reflexivity.
Defined.

(** ** main.c and platform.h: the frame interval, the clock, the sleeps *)

Lemma frame_interval_bounds (fps : Z) :
  1 ≤ fps ≤ 60 →
  16666666 ≤ Main.frame_interval fps ≤ 1000000000 ∧
  fps * Main.frame_interval fps ≤ 1000000000
  < fps * (Main.frame_interval fps + 1) ∧
  (Main.frame_interval fps = 1000000000 ↔ fps = 1).
Proof.
  intros Hfps. unfold Main.frame_interval.
  rewrite Z.quot_div_nonneg by lia.
  pose proof (Z.mul_div_le 1000000000 fps ltac:(lia)).
  pose proof (Z.mul_succ_div_gt 1000000000 fps ltac:(lia)).
  pose proof (Z.div_le_compat_l 1000000000 fps 60 ltac:(lia) ltac:(lia)) as H60.
  change (1000000000 / 60) with 16666666 in H60.
  split; [nia|]. split; [nia|]. split; [nia|].
  intros ->. reflexivity.
Qed.

(** With a frame rate in 1..60 and an [elapsed] that is not negative,
    [frame_ns - elapsed] is a value of [long] on either build, and the
    pacing step of the loop is [Main.pace]. *)
Lemma pace_long_in_range (s : Vcam.sink) (fps elapsed : Z) :
  1 ≤ fps ≤ 60 → 0 ≤ elapsed → Main.fits_long s elapsed →
  Main.pace_long s (Main.frame_interval fps) elapsed
  = Main.pace (Main.frame_interval fps) elapsed.
Proof.
  intros Hfps Hel Hfit. apply pace_long_fits.
  destruct (frame_interval_bounds fps Hfps) as (Hb & _).
  unfold Main.fits_long in *. destruct s; simpl in *; lia.
Qed.

(** X15: for a frame rate in 1..60 the frame interval lies between
    16666666 ns and one second, fps intervals never exceed a second
    (the division rounds down), and every pacing sleep the loop asks
    for is positive and at most one second; it is a whole second, which
    is not a valid [tv_nsec], only at 1 fps when no time at all was
    measured.  On either build this is the request the pacing step of
    the loop makes for an [elapsed] that is a value of [long]. *)
Theorem pacing_request_in_range (fps elapsed r : Z) :
  1 ≤ fps ≤ 60 → 0 ≤ elapsed →
  Main.pace (Main.frame_interval fps) elapsed = [Main.EvNanosleep r] →
  16666666 ≤ Main.frame_interval fps ≤ 1000000000 ∧
  fps * Main.frame_interval fps ≤ 1000000000
  < fps * (Main.frame_interval fps + 1) ∧
  0 < r ≤ 1000000000 ∧
  (r = 1000000000 ↔ fps = 1 ∧ elapsed = 0) ∧
  (∀ s, Main.fits_long s elapsed →
     Main.pace_long s (Main.frame_interval fps) elapsed
     = [Main.EvNanosleep r]).
Proof.
  intros Hfps Hel Hpace.
  destruct (frame_interval_bounds fps Hfps) as (Hb & Hm & Hone).
  split; [done|]. split; [done|].
  assert (r = Main.frame_interval fps - elapsed ∧ 0 < r) as [Er Hr].
  { unfold Main.pace in Hpace.
    destruct (Z.gtb_spec (Main.frame_interval fps - elapsed) 0); [|done].
    injection Hpace as <-. lia. }
  split; [lia|]. split.
  - split.
    + intros Hr1. assert (Main.frame_interval fps = 1000000000) as Hfi by lia.
      apply Hone in Hfi. lia.
    + intros [-> ->]. by rewrite Er.
  - intros s Hfit. by rewrite pace_long_in_range.
Qed.

Lemma pacing_request_in_range_witness :
  0 < 60000000 ≤ 1000000000.
Proof.
  eapply (pacing_request_in_range 15 6666666 60000000);
    [lia | lia | reflexivity].
Defined.

Lemma to_long_small (x : Z) : 0 ≤ x < 2 ^ 31 → Platform.to_long x = x.
Proof.
  intros Hx. unfold Platform.to_long, to_hresult.
  rewrite Z.mod_small by lia. by destruct (Z.ltb_spec x (2 ^ 31)); [|lia].
Qed.

(** Two readings of the clock shim, and the time between them as a
    number. *)
Lemma clock_gettime_time_between (freq c0 c1 : Z) :
  0 < freq → freq * 1000000000 < 2 ^ 63 →
  0 ≤ c0 ≤ c1 → c1 / freq < 2 ^ 31 →
  0 ≤ Main.tv_nsec (Platform.clock_gettime freq c0) < 1000000000 ∧
  Main.tv_sec (Platform.clock_gettime freq c0) = c0 / freq ∧
  0 ≤ Main.time_between (Platform.clock_gettime freq c0)
        (Platform.clock_gettime freq c1) ∧
  (c1 - c0) * 1000000000 - freq
  < Main.time_between (Platform.clock_gettime freq c0)
      (Platform.clock_gettime freq c1) * freq
  < (c1 - c0) * 1000000000 + freq.
Proof.
  intros Hfreq Hprod Hc Hsec.
  assert (∀ c, 0 ≤ c → c / freq < 2 ^ 31 →
            Platform.clock_gettime freq c
            = {| Main.tv_sec := c / freq;
                 Main.tv_nsec := (c mod freq) * 1000000000 / freq |} ∧
            0 ≤ (c mod freq) * 1000000000 / freq < 1000000000 ∧
            0 ≤ c / freq ∧
            freq * ((c mod freq) * 1000000000 / freq)
            ≤ (c mod freq) * 1000000000
            < freq * ((c mod freq) * 1000000000 / freq + 1) ∧
            c = freq * (c / freq) + c mod freq) as Hclock.
  { intros c Hc0 Hs. pose proof (Z.mod_pos_bound c freq Hfreq) as Hr.
    assert (0 ≤ c / freq) by (apply Z.div_pos; lia).
    assert (0 ≤ (c mod freq) * 1000000000 / freq < 1000000000) as Hn.
    { split; [apply Z.div_pos; lia|].
      apply Z.div_lt_upper_bound; [done|]. nia. }
    unfold Platform.clock_gettime.
    rewrite Z.quot_div_nonneg, Z.rem_mod_nonneg by lia.
    rewrite Z.quot_div_nonneg by lia.
    rewrite !to_long_small by lia.
    split; [done|]. split; [done|]. split; [done|]. split.
    - split; [apply Z.mul_div_le; lia|apply Z.mul_succ_div_gt; lia].
    - apply Z.div_mod. lia. }
  assert (c0 / freq ≤ c1 / freq) as Hmono by (apply Z.div_le_mono; lia).
  destruct (Hclock c0) as (-> & Hn0 & Hs0 & Hf0 & E0); [lia|lia|].
  destruct (Hclock c1) as (-> & Hn1 & Hs1 & Hf1 & E1); [lia|lia|].
  unfold Main.time_between. simpl.
  set (s0 := c0 / freq) in *. set (s1 := c1 / freq) in *.
  set (n0 := c0 mod freq * 1000000000 / freq) in *.
  set (n1 := c1 mod freq * 1000000000 / freq) in *.
  set (r0 := c0 mod freq) in *. set (r1 := c1 mod freq) in *.
  split; [done|]. split; [done|]. split.
  - destruct (Z.eq_dec s0 s1) as [Es|Ns].
    + assert (r0 ≤ r1) by nia.
      assert (n0 ≤ n1) by (apply Z.div_le_mono; lia). lia.
    + lia.
  - nia.
Qed.

(** X16: the clock shim gives valid and monotonic time stamps: for a
    positive counter frequency the nanosecond field lies in
    0..999999999, and between two readings of a counter that has not
    gone back, and that are less than the largest [long] apart in
    nanoseconds (2^31 - 1 ns on the Windows build), the [elapsed] that
    main computes is never negative and is within one nanosecond of
    the true counter difference. *)
Theorem clock_gettime_monotonic (s : Vcam.sink) (freq c0 c1 : Z) :
  0 < freq → freq * 1000000000 < 2 ^ 63 →
  0 ≤ c0 ≤ c1 → c1 / freq < 2 ^ 31 →
  (c1 - c0) * 1000000000 + freq ≤ 2 ^ (Main.long_bits s - 1) * freq →
  0 ≤ Main.tv_nsec (Platform.clock_gettime freq c0) < 1000000000 ∧
  Main.tv_sec (Platform.clock_gettime freq c0) = c0 / freq ∧
  0 ≤ Main.elapsed_ns s (Platform.clock_gettime freq c0)
        (Platform.clock_gettime freq c1) ∧
  (c1 - c0) * 1000000000 - freq
  < Main.elapsed_ns s (Platform.clock_gettime freq c0)
      (Platform.clock_gettime freq c1) * freq
  < (c1 - c0) * 1000000000 + freq.
Proof.
  intros Hfreq Hprod Hc Hsec Hshort.
  destruct (clock_gettime_time_between freq c0 c1 Hfreq Hprod Hc Hsec)
    as (Hn & Hs & Hpos & Hnear).
  rewrite elapsed_ns_exact; [done|].
  unfold Main.fits_long.
  assert (0 < 2 ^ (Main.long_bits s - 1)) by (by destruct s).
  split; [lia|].
  apply Z.mul_lt_mono_pos_r with freq; lia.
Qed.

Lemma clock_gettime_monotonic_witness :
  0 ≤ Main.elapsed_ns Vcam.WinStream
        (Platform.clock_gettime 10000000 123456789)
        (Platform.clock_gettime 10000000 123999999).
Proof.
  eapply (clock_gettime_monotonic Vcam.WinStream 10000000 123456789 123999999);
    [lia | lia | lia | reflexivity | by vm_compute].
Defined.

(** X17: the sleep shims round down to whole milliseconds but never
    turn a positive request into Sleep(0): for a valid time request
    nanosleep sleeps 0 ms only when nothing was asked for, at least
    1 ms otherwise, never longer than asked except to reach that 1 ms,
    and less than 1 ms short; usleep does the same with microseconds. *)
Theorem sleep_shims_round_to_milliseconds :
  (∀ sec nsec, 0 ≤ sec → 0 ≤ nsec < 1000000000 →
     sec * 1000 + nsec / 1000000 < 2 ^ 32 →
     (Platform.nanosleep {| Main.tv_sec := sec; Main.tv_nsec := nsec |} = 0
      ↔ sec = 0 ∧ nsec = 0) ∧
     0 ≤ Platform.nanosleep {| Main.tv_sec := sec; Main.tv_nsec := nsec |} ∧
     Platform.nanosleep {| Main.tv_sec := sec; Main.tv_nsec := nsec |} * 1000000
     ≤ Z.max (sec * 1000000000 + nsec) 1000000 ∧
     sec * 1000000000 + nsec
     < (Platform.nanosleep {| Main.tv_sec := sec; Main.tv_nsec := nsec |} + 1)
       * 1000000) ∧
  (∀ usec, 0 ≤ usec →
     (Platform.usleep usec = 0 ↔ usec = 0) ∧
     0 ≤ Platform.usleep usec ∧
     Platform.usleep usec * 1000 ≤ Z.max usec 1000 ∧
     usec < (Platform.usleep usec + 1) * 1000).
Proof.
  split.
  - intros sec nsec Hsec Hnsec Hfit. unfold Platform.nanosleep. simpl.
    rewrite (Z.quot_div_nonneg nsec) by lia.
    assert (0 ≤ nsec / 1000000) by (apply Z.div_pos; lia).
    unfold Platform.to_dword. rewrite Z.mod_small by lia.
    destruct (Z.eqb_spec (sec * 1000 + nsec / 1000000) 0) as [E|N];
      destruct (Z.gtb_spec nsec 0); simpl; div_lia.
  - intros usec Husec. unfold Platform.usleep.
    rewrite (Z.quot_div_nonneg usec) by lia.
    destruct (Z.eqb_spec (usec / 1000) 0) as [E|N];
      destruct (Z.gtb_spec usec 0); simpl; div_lia.
Qed.

Lemma sleep_shims_round_to_milliseconds_witness :
  Platform.nanosleep (Platform.pacing_request 500000) = 0
  ↔ 0 = 0 ∧ 500000 = 0.
Proof.
  destruct sleep_shims_round_to_milliseconds as [Hnano _].
  destruct (Hnano 0 500000) as [Hzero _]; [lia | lia | reflexivity |].
  exact Hzero.
Defined.

(** ** getopt_win.h: the option scanner *)

Lemma arg_at_middle (pre post : list string) (a : string) :
  GetoptWin.arg_at (pre ++ a :: post) (Z.of_nat (length pre)) = Some a.
Proof.
  unfold GetoptWin.arg_at. rewrite Nat2Z.id. apply list_lookup_middle. done.
Qed.

(** A call either returns -1 and changes nothing, or moves [optind]
    forward by one or two, never past [argc]. *)
Lemma getopt_long_steps (argv : list string) (optstring : string)
    (longopts : list GetoptWin.long_option) (st st' : GetoptWin.state)
    (r : Z) (d : list GetoptWin.diagnostic) :
  GetoptWin.getopt_long argv optstring longopts st = (r, st', d) →
  (r = -1 ∧ st' = st ∧ d = []) ∨
  (GetoptWin.optind st < GetoptWin.optind st' ≤ GetoptWin.optind st + 2 ∧
   GetoptWin.optind st' ≤ Z.of_nat (length argv)).
Proof.
  unfold GetoptWin.getopt_long. intros Hcall.
  destruct (Z.geb_spec (GetoptWin.optind st) (Z.of_nat (length argv)));
    [left; by injection Hcall as <- <- <-|].
  destruct (GetoptWin.arg_at argv (GetoptWin.optind st)) as [arg|];
    [|left; by injection Hcall as <- <- <-].
  repeat match type of Hcall with
         | context [?a <? ?b] => destruct (Z.ltb_spec a b)
         | context [if ?c then _ else _] => destruct c
         | context [match ?c with Some _ => _ | None => _ end] => destruct c
         end;
    injection Hcall as <- <- <-; simpl; (by left) || (right; lia).
Qed.

Lemma scan_terminates (argv : list string) (optstring : string)
    (longopts : list GetoptWin.long_option) (fuel : nat) :
  ∀ st : GetoptWin.state,
    Z.max 0 (Z.of_nat (length argv) - GetoptWin.optind st) < Z.of_nat fuel →
    ∃ opts, GetoptWin.scan fuel argv optstring longopts st = Some opts ∧
      Z.of_nat (length opts)
      ≤ Z.max 0 (Z.of_nat (length argv) - GetoptWin.optind st).
Proof.
  induction fuel as [|fuel IH]; intros st Hfuel; [lia|]. simpl.
  destruct (GetoptWin.getopt_long argv optstring longopts st)
    as [[r st'] d] eqn:Hcall.
  destruct (Z.eqb_spec r (-1)) as [->|Hr]; [exists []; simpl; split; [done|lia]|].
  apply getopt_long_steps in Hcall as [(-> & _)|[Hstep Hargc]]; [done|].
  destruct (IH st') as (opts & -> & Hlen); [lia|].
  eexists. split; [done|]. simpl. lia.
Qed.

(** X18: the option loop ends: every call of getopt_long either
    returns -1 leaving its state alone, or moves [optind] forward by
    one or two without passing [argc]; so scanning a command line of
    [argc] words ends within [argc + 1] calls and yields at most
    [argc - optind] options. *)
Theorem option_scan_terminates (argv : list string) (optstring : string)
    (longopts : list GetoptWin.long_option) (st : GetoptWin.state) :
  0 ≤ GetoptWin.optind st →
  (∀ r st' d,
     GetoptWin.getopt_long argv optstring longopts st = (r, st', d) →
     (r = -1 ∧ st' = st ∧ d = []) ∨
     (GetoptWin.optind st < GetoptWin.optind st' ≤ GetoptWin.optind st + 2 ∧
      GetoptWin.optind st' ≤ Z.of_nat (length argv))) ∧
  ∃ opts,
    GetoptWin.scan (S (length argv)) argv optstring longopts st = Some opts ∧
    Z.of_nat (length opts)
    ≤ Z.max 0 (Z.of_nat (length argv) - GetoptWin.optind st).
Proof.
  intros Hind. split.
  - intros r st' d. apply getopt_long_steps.
  - apply scan_terminates. lia.
Qed.

Lemma option_scan_terminates_witness :
  ∃ opts,
    GetoptWin.scan 5 ["screen2cam"; "-f"; "30"; "--help"]%string
      GetoptWin.screen2cam_optstring GetoptWin.screen2cam_longopts
      GetoptWin.initial = Some opts ∧
    Z.of_nat (length opts) ≤ Z.max 0 (Z.of_nat 4 - 1).
Proof.
  destruct (option_scan_terminates ["screen2cam"; "-f"; "30"; "--help"]%string
              GetoptWin.screen2cam_optstring GetoptWin.screen2cam_longopts
              GetoptWin.initial) as [_ Hscan]; [simpl; lia|].
  exact Hscan.
Defined.

Lemma string_length_append (a b : string) :
  String.length (String.append a b) = (String.length a + String.length b)%nat.
Proof. induction a as [|x a IH]; simpl; [done|]. by rewrite IH. Qed.

Lemma strchr_append (nm rest : string) (c : ascii) :
  GetoptWin.strchr nm c = None →
  GetoptWin.strchr (String.append nm (String c rest)) c = Some (String c rest).
Proof.
  induction nm as [|x nm IH]; simpl.
  - intros _. by rewrite Ascii.eqb_refl.
  - destruct (Ascii.eqb x c); [done|]. apply IH.
Qed.

Lemma strncmp_eq_append (a nm rest : string) :
  GetoptWin.strncmp_eq a (String.append nm rest) (String.length nm)
  = GetoptWin.strncmp_eq a nm (String.length nm).
Proof.
  revert a. induction nm as [|x nm IH]; intros a; simpl; [done|].
  destruct a as [|y a]; [done|]. by rewrite IH.
Qed.

(** The test of the [for] loop, [strncmp] over the length of the name
    given plus equal lengths, is equality of the two names. *)
Lemma strncmp_strlen_eqb (a b : string) :
  GetoptWin.strncmp_eq a b (String.length b)
  && (String.length a =? String.length b)%nat
  = String.eqb a b.
Proof.
  revert a. induction b as [|y b IH]; intros a; simpl.
  - by destruct a.
  - destruct a as [|x a]; simpl; [done|]. rewrite <- IH.
    by destruct (Ascii.eqb x y).
Qed.

Lemma find_long_find (longopts : list GetoptWin.long_option) (nm : string) :
  GetoptWin.find_long longopts nm (String.length nm)
  = List.find (λ o, String.eqb (GetoptWin.name o) nm) longopts.
Proof.
  induction longopts as [|o lo IH]; simpl; [done|].
  by rewrite strncmp_strlen_eqb, IH.
Qed.

Lemma find_long_append (longopts : list GetoptWin.long_option)
    (nm rest : string) :
  GetoptWin.find_long longopts (String.append nm rest) (String.length nm)
  = GetoptWin.find_long longopts nm (String.length nm).
Proof.
  induction longopts as [|o lo IH]; simpl; [done|].
  by rewrite strncmp_eq_append, IH.
Qed.

Lemma arg_at_after (pre post : list string) (a b : string) :
  GetoptWin.arg_at (pre ++ a :: b :: post) (Z.of_nat (length pre) + 1) = Some b.
Proof.
  unfold GetoptWin.arg_at.
  replace (Z.to_nat (Z.of_nat (length pre) + 1)) with (length pre + 1)%nat by lia.
  rewrite lookup_app_r by lia.
  by replace (length pre + 1 - length pre)%nat with 1%nat by lia.
Qed.

Lemma argc_after (pre post : list string) (a b : string) :
  (Z.of_nat (length pre) + 1 <? Z.of_nat (length (pre ++ a :: b :: post)))
  = true.
Proof. rewrite length_app. simpl. apply Z.ltb_lt. lia. Qed.

Lemma char_at_0 (x : ascii) (s : string) :
  GetoptWin.char_at (String x s) 0 = x.
Proof. done. Qed.

Lemma char_at_S (x : ascii) (s : string) (k : nat) :
  GetoptWin.char_at (String x s) (S k) = GetoptWin.char_at s k.
Proof. done. Qed.

Lemma char_at_empty (k : nat) : GetoptWin.char_at EmptyString k = Ascii.zero.
Proof. by destruct k. Qed.

Lemma char_at_append_0 (nm rest : string) :
  GetoptWin.char_at nm 0 ≠ Ascii.zero →
  GetoptWin.char_at (String.append nm rest) 0 = GetoptWin.char_at nm 0.
Proof. by destruct nm. Qed.

Lemma argc_middle (pre post : list string) (a : string) (k : Z) :
  k = Z.of_nat (length pre) →
  (k >=? Z.of_nat (length (pre ++ a :: post))) = false.
Proof.
  intros ->. rewrite length_app. simpl.
  destruct (Z.geb_spec (Z.of_nat (length pre))
              (Z.of_nat (length pre + S (length post)))); [lia|done].
Qed.

(** X19: an option that takes an argument accepts it attached or as
    the next word, with the same result: for a short option [c] listed
    with a colon, [-cVALUE] and [-c VALUE] both return the [char] [c]
    (a negative number for a byte of 0x80 or more) with [optarg]
    VALUE; for a long option with required_argument,
    [--name=VALUE] and [--name VALUE] both return its [val] with
    [optarg] VALUE; either way [optind] ends on the word after. *)
Theorem option_argument_forms (pre post : list string) (value : string)
    (optstring : string) (longopts : list GetoptWin.long_option)
    (st : GetoptWin.state) :
  GetoptWin.optind st = Z.of_nat (length pre) →
  (∀ c p, c ≠ "-"%char → c ≠ Ascii.zero →
     GetoptWin.strchr optstring c = Some p →
     GetoptWin.char_at p 1 = ":"%char →
     GetoptWin.char_at value 0 ≠ Ascii.zero →
     GetoptWin.getopt_long (pre ++ String "-" (String c value) :: post)
       optstring longopts st
     = (GetoptWin.char_code c,
        {| GetoptWin.optarg := Some value;
           GetoptWin.optind := GetoptWin.optind st + 1;
           GetoptWin.optopt := GetoptWin.optopt st |}, []) ∧
     GetoptWin.getopt_long
       (pre ++ String "-" (String c EmptyString) :: value :: post)
       optstring longopts st
     = (GetoptWin.char_code c,
        {| GetoptWin.optarg := Some value;
           GetoptWin.optind := GetoptWin.optind st + 2;
           GetoptWin.optopt := GetoptWin.optopt st |}, [])) ∧
  (∀ nm o, GetoptWin.char_at nm 0 ≠ Ascii.zero →
     GetoptWin.strchr nm "=" = None →
     List.find (λ o, String.eqb (GetoptWin.name o) nm) longopts = Some o →
     GetoptWin.has_arg o = GetoptWin.required_argument →
     GetoptWin.getopt_long
       (pre ++ String "-" (String "-" (String.append nm (String "=" value)))
            :: post) optstring longopts st
     = (GetoptWin.val o,
        {| GetoptWin.optarg := Some value;
           GetoptWin.optind := GetoptWin.optind st + 1;
           GetoptWin.optopt := GetoptWin.optopt st |}, []) ∧
     GetoptWin.getopt_long
       (pre ++ String "-" (String "-" nm) :: value :: post)
       optstring longopts st
     = (GetoptWin.val o,
        {| GetoptWin.optarg := Some value;
           GetoptWin.optind := GetoptWin.optind st + 2;
           GetoptWin.optopt := GetoptWin.optopt st |}, [])).
Proof.
  intros Hind. split.
  - intros c p Hdash Hnul Hp Hcolon Hvalue.
    apply Ascii.eqb_neq in Hdash, Hnul, Hvalue.
    unfold GetoptWin.getopt_long. rewrite !argc_middle by done.
    rewrite Hind, !arg_at_middle.
    rewrite !char_at_S, !char_at_0, !char_at_empty.
    rewrite !Ascii.eqb_refl, Hdash, Hnul, Hvalue, Hp. simpl andb. cbv iota.
    rewrite Hcolon, Ascii.eqb_refl. simpl negb. cbv iota.
    split; [done|].
    rewrite argc_after, arg_at_after. by rewrite <- Z.add_assoc.
  - intros nm o Hnm Heq Hfind Harg.
    rewrite <- find_long_find in Hfind.
    pose proof Hnm as Hnm'. apply Ascii.eqb_neq in Hnm'.
    unfold GetoptWin.getopt_long. rewrite !argc_middle by done.
    rewrite Hind, !arg_at_middle.
    rewrite !char_at_S, !char_at_0.
    rewrite char_at_append_0 by done.
    rewrite !Ascii.eqb_refl, Hnm'. simpl andb. simpl negb. cbv iota.
    cbn [GetoptWin.advance].
    rewrite strchr_append by done.
    rewrite string_length_append.
    replace (String.length nm + String.length (String "=" value)
             - String.length (String "=" value))%nat
      with (String.length nm) by lia.
    rewrite find_long_append, Heq, Hfind, Harg. simpl Z.eqb. cbv iota.
    split; [done|].
    rewrite argc_after, arg_at_after. by rewrite <- Z.add_assoc.
Qed.

Lemma option_argument_forms_witness :
  GetoptWin.getopt_long ["screen2cam"; "-f30"]%string
    GetoptWin.screen2cam_optstring GetoptWin.screen2cam_longopts
    GetoptWin.initial
  = (GetoptWin.char_code "f",
     {| GetoptWin.optarg := Some "30"%string; GetoptWin.optind := 1 + 1;
        GetoptWin.optopt := 0 |}, []).
Proof.
  destruct (option_argument_forms ["screen2cam"%string] [] "30"
              GetoptWin.screen2cam_optstring GetoptWin.screen2cam_longopts
              GetoptWin.initial) as [Hshort _]; [reflexivity|].
  destruct (Hshort "f"%char "f:h"%string) as [Hattached _];
    [discriminate | discriminate | reflexivity | reflexivity | discriminate |].
  exact Hattached.
Defined.

(** [char] is signed: the option letters are their ASCII codes, a
    byte of 0x80 or more is a negative number, 0xff the -1 that ends
    the scan. *)
Example char_code_is_signed :
  GetoptWin.char_code "d" = 100 ∧ GetoptWin.char_code "127" = 127 ∧
  GetoptWin.char_code "128" = -128 ∧ GetoptWin.char_code "255" = -1.
Proof. by vm_compute. Qed.

Lemma find_none_names (longopts : list GetoptWin.long_option) (nm : string) :
  Forall (λ o, GetoptWin.name o ≠ nm) longopts →
  List.find (λ o, String.eqb (GetoptWin.name o) nm) longopts = None.
Proof.
  induction 1 as [|o lo Ho _ IH]; simpl; [done|].
  by apply String.eqb_neq in Ho as ->.
Qed.

(** X20: long options must be spelled out: a word [--name] or
    [--name=value] whose name is not exactly the name of a table entry
    (an abbreviation such as [--dev] included) returns ['?'] with the
    "unrecognized option" line, steps over that one word and leaves
    [optarg] and [optopt] alone. *)
Theorem unknown_long_option_rejected (pre post : list string) (nm : string)
    (optstring : string) (longopts : list GetoptWin.long_option)
    (st : GetoptWin.state) :
  GetoptWin.optind st = Z.of_nat (length pre) →
  GetoptWin.char_at nm 0 ≠ Ascii.zero →
  GetoptWin.strchr nm "=" = None →
  Forall (λ o, GetoptWin.name o ≠ nm) longopts →
  GetoptWin.getopt_long (pre ++ String "-" (String "-" nm) :: post)
    optstring longopts st
  = (GetoptWin.QUESTION,
     {| GetoptWin.optarg := GetoptWin.optarg st;
        GetoptWin.optind := GetoptWin.optind st + 1;
        GetoptWin.optopt := GetoptWin.optopt st |},
     [GetoptWin.Unrecognized]) ∧
  ∀ value,
    GetoptWin.getopt_long
      (pre ++ String "-" (String "-" (String.append nm (String "=" value)))
           :: post) optstring longopts st
    = (GetoptWin.QUESTION,
       {| GetoptWin.optarg := GetoptWin.optarg st;
          GetoptWin.optind := GetoptWin.optind st + 1;
          GetoptWin.optopt := GetoptWin.optopt st |},
       [GetoptWin.Unrecognized]).
Proof.
  intros Hind Hnm Heq Hnames.
  apply find_none_names in Hnames. rewrite <- find_long_find in Hnames.
  pose proof Hnm as Hnm'. apply Ascii.eqb_neq in Hnm'.
  unfold GetoptWin.getopt_long. split; [|intros value];
    rewrite !argc_middle by done; rewrite Hind, !arg_at_middle;
    rewrite !char_at_S, !char_at_0.
  - rewrite !Ascii.eqb_refl, Hnm'. simpl andb. simpl negb. cbv iota.
    cbn [GetoptWin.advance]. by rewrite Heq, Hnames.
  - rewrite char_at_append_0 by done.
    rewrite !Ascii.eqb_refl, Hnm'. simpl andb. simpl negb. cbv iota.
    cbn [GetoptWin.advance]. rewrite strchr_append by done.
    rewrite string_length_append.
    replace (String.length nm + String.length (String "=" value)
             - String.length (String "=" value))%nat
      with (String.length nm) by lia.
    by rewrite find_long_append, Hnames.
Qed.

Lemma unknown_long_option_rejected_witness :
  GetoptWin.getopt_long ["screen2cam"; "--dev"; "/dev/video3"]%string
    GetoptWin.screen2cam_optstring GetoptWin.screen2cam_longopts
    GetoptWin.initial
  = (GetoptWin.QUESTION,
     {| GetoptWin.optarg := None; GetoptWin.optind := 1 + 1;
        GetoptWin.optopt := 0 |}, [GetoptWin.Unrecognized]).
Proof.
  destruct (unknown_long_option_rejected ["screen2cam"%string]
              ["/dev/video3"%string] "dev"
              GetoptWin.screen2cam_optstring GetoptWin.screen2cam_longopts
              GetoptWin.initial) as [Hplain _];
    [reflexivity | discriminate | reflexivity | |exact Hplain].
  repeat constructor; discriminate.
Defined.

(** X21: the scanner does not permute the command line: at the first
    word that is not an option (one that does not begin with a dash,
    or a lone dash) getopt_long returns -1 with its state untouched,
    so the option loop ends there and no later word is looked at; and
    a word [--] is not taken as the end of the options but reported
    as the invalid option [-], unless the option string lists a
    dash. *)
Theorem scan_stops_at_first_operand (pre post : list string) (arg : string)
    (optstring : string) (longopts : list GetoptWin.long_option)
    (st : GetoptWin.state) (fuel : nat) :
  GetoptWin.optind st = Z.of_nat (length pre) →
  (GetoptWin.char_at arg 0 ≠ "-"%char ∨ arg = "-"%string →
     GetoptWin.getopt_long (pre ++ arg :: post) optstring longopts st
     = (-1, st, []) ∧
     GetoptWin.scan (S fuel) (pre ++ arg :: post) optstring longopts st
     = Some []) ∧
  (GetoptWin.strchr optstring "-" = None →
     GetoptWin.getopt_long (pre ++ "--"%string :: post) optstring longopts st
     = (GetoptWin.QUESTION,
        {| GetoptWin.optarg := GetoptWin.optarg st;
           GetoptWin.optind := GetoptWin.optind st + 1;
           GetoptWin.optopt := GetoptWin.char_code "-" |},
        [GetoptWin.InvalidOption])).
Proof.
  intros Hind. split.
  - intros Harg.
    assert (GetoptWin.getopt_long (pre ++ arg :: post) optstring longopts st
            = (-1, st, [])) as Hcall.
    { unfold GetoptWin.getopt_long. rewrite argc_middle by done.
      rewrite Hind, arg_at_middle. destruct Harg as [Hfirst| ->].
      - apply Ascii.eqb_neq in Hfirst. by rewrite Hfirst.
      - done. }
    split; [done|]. simpl. by rewrite Hcall.
  - intros Hdash. unfold GetoptWin.getopt_long. rewrite argc_middle by done.
    rewrite Hind, arg_at_middle.
    rewrite !char_at_S, !char_at_0, !char_at_empty.
    rewrite !Ascii.eqb_refl. simpl andb. simpl negb. cbv iota.
    by rewrite Hdash.
Qed.

Lemma scan_stops_at_first_operand_witness :
  GetoptWin.scan 4 ["screen2cam"; "out.yuv"; "-f"; "30"]%string
    GetoptWin.screen2cam_optstring GetoptWin.screen2cam_longopts
    GetoptWin.initial
  = Some [].
Proof.
  destruct (scan_stops_at_first_operand ["screen2cam"%string]
              ["-f"; "30"]%string "out.yuv"
              GetoptWin.screen2cam_optstring GetoptWin.screen2cam_longopts
              GetoptWin.initial 3) as [Hstop _]; [reflexivity|].
  destruct Hstop as [_ Hscan]; [left; discriminate|exact Hscan].
Defined.

(** ** The pipeline end to end *)


